(** * createListComponent: the windowing engine of the list component

    A shallow embedding of [src/createListComponent.js].

    Conventions of the embedding.
    - JavaScript numbers that the component handles (indices, pixel offsets,
      extents) are integers of [Z]; a value that may be [undefined]
      (the [normalizedScrollLeft] field after a vertical programmatic scroll)
      is an [option Z], [None] standing for [undefined].
    - The component instance, the objects it owns (memoization cells, the
      item style cache, the strategy's [instanceProps]) and the host
      collaborators it talks to (timer module, outer DOM element, the two
      host callbacks) are the fields of one record, [Instance]; methods are
      computations of the state monad [M] over that record.
    - Every call that leaves the component (strategy functions, host
      callbacks, timer module, DOM writes) is appended to [trace], so that
      the order of effects can be stated.
    - [setState] follows React: the update is queued with its completion
      callback, and [flushUpdates] (React's work loop) applies queued
      updaters, re-renders only when the state changed ([PureComponent]),
      runs [componentDidUpdate], and then runs the completion callbacks,
      which React invokes whether or not the updater returned [null].
    - A re-render by the parent reaches [render] and [componentDidUpdate]
      only with props that are not shallowly equal to those of the previous
      render ([PureComponent] again); the host event says which.
    - The validation of props in [getDerivedStateFromProps], which only
      warns or throws in development mode, and the element types, class
      name and style props that [render] passes through are left out. *)

From stdpp Require Import base numbers list list_numbers gmap strings.

Local Open Scope Z_scope.

(** ** Types of the component *)

Inductive Direction := ltr | rtl | direction_horizontal | direction_vertical.
Inductive Layout := horizontal | vertical.
Inductive ScrollDirection := forward | backward.
Inductive ScrollToAlign :=
  align_auto | align_smart | align_center | align_start | align_end.

(** The directions [normalizeScrollLeft] understands. *)
Inductive MappedDirection := mapped_ltr | mapped_rtl.

(** [itemSize: number | ((index) => number)]; a function is known by its
    identity only, which is all the component uses of it (a [===] test). *)
Inductive ItemSize := FixedSize (size : Z) | SizeFunction (identity : nat).

#[global] Instance Direction_eq_dec : EqDecision Direction.
Proof. solve_decision. Defined.
#[global] Instance Layout_eq_dec : EqDecision Layout.
Proof. solve_decision. Defined.
#[global] Instance ScrollDirection_eq_dec : EqDecision ScrollDirection.
Proof. solve_decision. Defined.
#[global] Instance ItemSize_eq_dec : EqDecision ItemSize.
Proof. solve_decision. Defined.

(** The props the engine reads.  [onItemsRendered] and [onScroll] record
    whether the host supplied the callback ([typeof ... === 'function']);
    the invocations themselves are events of the trace. *)
Record Props := {
  direction : Direction;
  initialScrollOffset : option Z;
  itemCount : Z;
  itemSize : ItemSize;
  layout : Layout;
  onItemsRendered : bool;
  onScroll : bool;
  overscanCount : Z;
  useIsScrolling : bool;
  width : Z;
}.

(** [State]; the [instance] field always holds [this] and is left out. *)
Record State := {
  isScrolling : bool;
  scrollDirection : ScrollDirection;
  scrollOffset : Z;
  normalizedScrollLeft : option Z;
  scrollUpdateWasRequested : bool;
}.

#[global] Instance State_eq_dec : EqDecision State.
Proof. solve_decision. Defined.

(** The part of a scroll event the handlers read ([event.currentTarget]). *)
Record ScrollEvent := {
  clientWidth : Z;
  scrollLeft : Z;
  scrollWidth : Z;
  scrollTop : Z;
}.

(** The outer DOM element behind [_outerRef]. *)
Record OuterElement := {
  el_scrollLeft : Z;
  el_scrollTop : Z;
  el_scrollWidth : Z;
}.

(** The style object [_getItemStyle] builds; [None] is ['100%']. *)
Inductive Side := side_left | side_right.
Record ItemStyle := {
  style_side : Side;
  style_side_value : Z;
  style_top : Z;
  style_height : option Z;
  style_width : option Z;
}.

(** A child element created by [render]. *)
Record Item := {
  item_index : Z;
  item_key : Z;
  item_isScrolling : option bool;
  item_style : ItemStyle;
}.

(** The argument tuples [_getItemStyleCache] is called with: the three
    values derived from the props ([None] is [false]), or [(-1, null)]. *)
Inductive StyleCacheArgs :=
| ArgsOfProps (a : option ItemSize) (b : option Layout) (c : option Direction)
| ArgsReset.

#[global] Instance StyleCacheArgs_eq_dec : EqDecision StyleCacheArgs.
Proof. solve_decision. Defined.

Definition TimeoutID := nat.

Definition IS_SCROLLING_DEBOUNCE_INTERVAL : Z := 150.

(** Calls that leave the component, in the order they happen. *)
Inductive Event :=
| CallGetItemOffset (index : Z)
| CallGetItemSize (index : Z)
| CallGetEstimatedTotalSize
| CallGetOffsetForIndexAndAlignment
    (index : Z) (align : ScrollToAlign) (scrollOffset : option Z)
| CallGetStartIndexForOffset (offset : option Z)
| CallGetStopIndexForStartIndex (startIndex : Z) (offset : option Z)
| OnItemsRendered (overscanStart overscanStop visibleStart visibleStop : Z)
| OnScroll (dir : ScrollDirection) (offset : Z) (requested : bool)
| RequestTimeout (id : TimeoutID) (delay : Z)
| CancelTimeout (id : TimeoutID)
| WriteScrollLeft (value : Z)
| WriteScrollTop (value : Z).

(** The completion callbacks the component passes to [setState]. *)
Inductive Callback := ResetIsScrollingDebounced | ClearItemStyleCache.

(** A queued [setState]: updater and optional completion callback. *)
Record Update := {
  updater : State → option State;
  callback : option Callback;
}.

(** ** The injected strategy and the imported helper *)

(** The object passed to [createListComponent].  Strategy functions receive
    the mutable [instanceProps] object and may update it, so each returns
    the new [instanceProps] with its result.  An offset argument may be
    [undefined] when it is read from [normalizedScrollLeft]. *)
Class ListStrategy := {
  InstanceProps : Type;
  getItemOffset : Props → Z → InstanceProps → Z * InstanceProps;
  getEstimatedTotalSize : Props → InstanceProps → Z * InstanceProps;
  getItemSize : Props → Z → InstanceProps → Z * InstanceProps;
  getOffsetForIndexAndAlignment :
    Props → Z → ScrollToAlign → option Z → InstanceProps → Z * InstanceProps;
  getStartIndexForOffset : Props → option Z → InstanceProps → Z * InstanceProps;
  getStopIndexForStartIndex :
    Props → Z → option Z → InstanceProps → Z * InstanceProps;
  initInstanceProps : Props → InstanceProps;
  shouldResetStyleCacheOnItemSizeChange : bool;
}.

(** [normalizeScrollLeft] of [./domHelpers], which is not part of the file:
    taken as a parameter, with its named arguments in the order
    [direction], [scrollLeft], [clientWidth], [scrollWidth]. *)
Class DomHelpers := {
  normalizeScrollLeft : MappedDirection → Z → Z → Z → Z;
}.

(** ** JavaScript operators *)

(** [a < b] on numbers that may be [undefined]: false when either is. *)
Definition js_lt (a b : option Z) : bool :=
  match a, b with
  | Some x, Some y => x <? y
  | _, _ => false
  end.

(** [n || 1] on a number: [1] when [n] is [0]. *)
Definition js_or_1 (n : Z) : Z := if n =? 0 then 1 else n.

Section Component.

Context {strategy : ListStrategy} {dom : DomHelpers}.

(** ** The instance *)

Record Instance := {
  state : State;
  _instanceProps : InstanceProps;
  _outerRef : option OuterElement;
  _resetIsScrollingTimeoutId : option TimeoutID;
  (* memoizeOne cells: last argument tuple of each memoized function *)
  _callOnItemsRendered_lastArgs : option (Z * Z * Z * Z);
  _callOnScroll_lastArgs : option (ScrollDirection * Z * bool);
  _getItemStyleCache_lastArgs : option StyleCacheArgs;
  itemStyleCache : gmap Z ItemStyle;
  (* React: updates queued by setState and not yet processed *)
  updateQueue : list Update;
  (* timer module: timeouts requested and neither fired nor cancelled *)
  pendingTimeouts : list TimeoutID;
  nextTimeoutID : TimeoutID;
  trace : list Event;
}.

Definition M (A : Type) : Type := Instance → A * Instance.

#[export] Instance M_ret : MRet M := λ A a i, (a, i).
#[export] Instance M_bind : MBind M :=
  λ A B k m i, let (a, i') := m i in k a i'.

Definition exec {A} (m : M A) (i : Instance) : Instance := (m i).2.
Definition eval {A} (m : M A) (i : Instance) : A := (m i).1.

(** Field assignments. *)
Definition set_state (v : State) (i : Instance) : Instance :=
  {| state := v; _instanceProps := _instanceProps i;
     _outerRef := _outerRef i;
     _resetIsScrollingTimeoutId := _resetIsScrollingTimeoutId i;
     _callOnItemsRendered_lastArgs := _callOnItemsRendered_lastArgs i;
     _callOnScroll_lastArgs := _callOnScroll_lastArgs i;
     _getItemStyleCache_lastArgs := _getItemStyleCache_lastArgs i;
     itemStyleCache := itemStyleCache i; updateQueue := updateQueue i;
     pendingTimeouts := pendingTimeouts i; nextTimeoutID := nextTimeoutID i;
     trace := trace i |}.
Definition set_instanceProps (v : InstanceProps) (i : Instance) : Instance :=
  {| state := state i; _instanceProps := v; _outerRef := _outerRef i;
     _resetIsScrollingTimeoutId := _resetIsScrollingTimeoutId i;
     _callOnItemsRendered_lastArgs := _callOnItemsRendered_lastArgs i;
     _callOnScroll_lastArgs := _callOnScroll_lastArgs i;
     _getItemStyleCache_lastArgs := _getItemStyleCache_lastArgs i;
     itemStyleCache := itemStyleCache i; updateQueue := updateQueue i;
     pendingTimeouts := pendingTimeouts i; nextTimeoutID := nextTimeoutID i;
     trace := trace i |}.
Definition set_outerRef (v : option OuterElement) (i : Instance) : Instance :=
  {| state := state i; _instanceProps := _instanceProps i; _outerRef := v;
     _resetIsScrollingTimeoutId := _resetIsScrollingTimeoutId i;
     _callOnItemsRendered_lastArgs := _callOnItemsRendered_lastArgs i;
     _callOnScroll_lastArgs := _callOnScroll_lastArgs i;
     _getItemStyleCache_lastArgs := _getItemStyleCache_lastArgs i;
     itemStyleCache := itemStyleCache i; updateQueue := updateQueue i;
     pendingTimeouts := pendingTimeouts i; nextTimeoutID := nextTimeoutID i;
     trace := trace i |}.
Definition set_resetIsScrollingTimeoutId (v : option TimeoutID) (i : Instance) : Instance :=
  {| state := state i; _instanceProps := _instanceProps i;
     _outerRef := _outerRef i; _resetIsScrollingTimeoutId := v;
     _callOnItemsRendered_lastArgs := _callOnItemsRendered_lastArgs i;
     _callOnScroll_lastArgs := _callOnScroll_lastArgs i;
     _getItemStyleCache_lastArgs := _getItemStyleCache_lastArgs i;
     itemStyleCache := itemStyleCache i; updateQueue := updateQueue i;
     pendingTimeouts := pendingTimeouts i; nextTimeoutID := nextTimeoutID i;
     trace := trace i |}.
Definition set_callOnItemsRendered_lastArgs (v : option (Z * Z * Z * Z)) (i : Instance) : Instance :=
  {| state := state i; _instanceProps := _instanceProps i;
     _outerRef := _outerRef i;
     _resetIsScrollingTimeoutId := _resetIsScrollingTimeoutId i;
     _callOnItemsRendered_lastArgs := v;
     _callOnScroll_lastArgs := _callOnScroll_lastArgs i;
     _getItemStyleCache_lastArgs := _getItemStyleCache_lastArgs i;
     itemStyleCache := itemStyleCache i; updateQueue := updateQueue i;
     pendingTimeouts := pendingTimeouts i; nextTimeoutID := nextTimeoutID i;
     trace := trace i |}.
Definition set_callOnScroll_lastArgs (v : option (ScrollDirection * Z * bool)) (i : Instance) : Instance :=
  {| state := state i; _instanceProps := _instanceProps i;
     _outerRef := _outerRef i;
     _resetIsScrollingTimeoutId := _resetIsScrollingTimeoutId i;
     _callOnItemsRendered_lastArgs := _callOnItemsRendered_lastArgs i;
     _callOnScroll_lastArgs := v;
     _getItemStyleCache_lastArgs := _getItemStyleCache_lastArgs i;
     itemStyleCache := itemStyleCache i; updateQueue := updateQueue i;
     pendingTimeouts := pendingTimeouts i; nextTimeoutID := nextTimeoutID i;
     trace := trace i |}.
Definition set_getItemStyleCache_lastArgs (v : option StyleCacheArgs) (i : Instance) : Instance :=
  {| state := state i; _instanceProps := _instanceProps i;
     _outerRef := _outerRef i;
     _resetIsScrollingTimeoutId := _resetIsScrollingTimeoutId i;
     _callOnItemsRendered_lastArgs := _callOnItemsRendered_lastArgs i;
     _callOnScroll_lastArgs := _callOnScroll_lastArgs i;
     _getItemStyleCache_lastArgs := v; itemStyleCache := itemStyleCache i;
     updateQueue := updateQueue i; pendingTimeouts := pendingTimeouts i;
     nextTimeoutID := nextTimeoutID i; trace := trace i |}.
Definition set_itemStyleCache (v : gmap Z ItemStyle) (i : Instance) : Instance :=
  {| state := state i; _instanceProps := _instanceProps i;
     _outerRef := _outerRef i;
     _resetIsScrollingTimeoutId := _resetIsScrollingTimeoutId i;
     _callOnItemsRendered_lastArgs := _callOnItemsRendered_lastArgs i;
     _callOnScroll_lastArgs := _callOnScroll_lastArgs i;
     _getItemStyleCache_lastArgs := _getItemStyleCache_lastArgs i;
     itemStyleCache := v; updateQueue := updateQueue i;
     pendingTimeouts := pendingTimeouts i; nextTimeoutID := nextTimeoutID i;
     trace := trace i |}.
Definition set_updateQueue (v : list Update) (i : Instance) : Instance :=
  {| state := state i; _instanceProps := _instanceProps i;
     _outerRef := _outerRef i;
     _resetIsScrollingTimeoutId := _resetIsScrollingTimeoutId i;
     _callOnItemsRendered_lastArgs := _callOnItemsRendered_lastArgs i;
     _callOnScroll_lastArgs := _callOnScroll_lastArgs i;
     _getItemStyleCache_lastArgs := _getItemStyleCache_lastArgs i;
     itemStyleCache := itemStyleCache i; updateQueue := v;
     pendingTimeouts := pendingTimeouts i; nextTimeoutID := nextTimeoutID i;
     trace := trace i |}.
Definition set_pendingTimeouts (v : list TimeoutID) (i : Instance) : Instance :=
  {| state := state i; _instanceProps := _instanceProps i;
     _outerRef := _outerRef i;
     _resetIsScrollingTimeoutId := _resetIsScrollingTimeoutId i;
     _callOnItemsRendered_lastArgs := _callOnItemsRendered_lastArgs i;
     _callOnScroll_lastArgs := _callOnScroll_lastArgs i;
     _getItemStyleCache_lastArgs := _getItemStyleCache_lastArgs i;
     itemStyleCache := itemStyleCache i; updateQueue := updateQueue i;
     pendingTimeouts := v; nextTimeoutID := nextTimeoutID i;
     trace := trace i |}.
Definition set_nextTimeoutID (v : TimeoutID) (i : Instance) : Instance :=
  {| state := state i; _instanceProps := _instanceProps i;
     _outerRef := _outerRef i;
     _resetIsScrollingTimeoutId := _resetIsScrollingTimeoutId i;
     _callOnItemsRendered_lastArgs := _callOnItemsRendered_lastArgs i;
     _callOnScroll_lastArgs := _callOnScroll_lastArgs i;
     _getItemStyleCache_lastArgs := _getItemStyleCache_lastArgs i;
     itemStyleCache := itemStyleCache i; updateQueue := updateQueue i;
     pendingTimeouts := pendingTimeouts i; nextTimeoutID := v;
     trace := trace i |}.
Definition set_trace (v : list Event) (i : Instance) : Instance :=
  {| state := state i; _instanceProps := _instanceProps i;
     _outerRef := _outerRef i;
     _resetIsScrollingTimeoutId := _resetIsScrollingTimeoutId i;
     _callOnItemsRendered_lastArgs := _callOnItemsRendered_lastArgs i;
     _callOnScroll_lastArgs := _callOnScroll_lastArgs i;
     _getItemStyleCache_lastArgs := _getItemStyleCache_lastArgs i;
     itemStyleCache := itemStyleCache i; updateQueue := updateQueue i;
     pendingTimeouts := pendingTimeouts i; nextTimeoutID := nextTimeoutID i;
     trace := v |}.

(** ** Primitive computations *)

Definition read {A} (f : Instance → A) : M A := λ i, (f i, i).
Definition modify (f : Instance → Instance) : M unit := λ i, (tt, f i).
Definition emit (e : Event) : M unit :=
  λ i, (tt, set_trace (trace i ++ [e]) i).

(** A call of a strategy function on [this._instanceProps]. *)
Definition invoke (e : Event) (f : InstanceProps → Z * InstanceProps) : M Z :=
  λ i, let (r, ip) := f (_instanceProps i) in
       (r, set_trace (trace i ++ [e]) (set_instanceProps ip i)).

(** Runs the computations of a list in order, for their effects. *)
Fixpoint forEach {A} (f : A → M unit) (l : list A) : M unit :=
  match l with
  | [] => mret tt
  | a :: l' => f a;; forEach f l'
  end.

(** Modelled from the spec: the timer module ([./timer]) is a collaborator
    with [schedule(callback, delayMs) -> timerHandle] and
    [cancel(timerHandle)]; [requestTimeout] hands out a fresh handle and
    keeps it pending until it fires or is cancelled.  The only callback the
    component schedules is [_resetIsScrolling]. *)
Definition requestTimeout (delay : Z) : M TimeoutID :=
  λ i, let id := nextTimeoutID i in
       (id, set_trace (trace i ++ [RequestTimeout id delay])
              (set_nextTimeoutID (S id)
                 (set_pendingTimeouts (pendingTimeouts i ++ [id]) i))).

(** Modelled from the spec: [cancel(timerHandle)] of the timer module; the
    handle is no longer pending. *)
Definition cancelTimeout (id : TimeoutID) : M unit :=
  λ i, (tt, set_trace (trace i ++ [CancelTimeout id])
              (set_pendingTimeouts
                 (filter (λ t, t ≠ id) (pendingTimeouts i)) i)).

(** [this.setState(updater, callback)]: React queues the update. *)
Definition setState
    (upd : State → option State) (cb : option Callback) : M unit :=
  modify (λ i, set_updateQueue
                 (updateQueue i ++ [{| updater := upd; callback := cb |}]) i).

(** ** Methods of the component *)

Definition isHorizontal (p : Props) : bool :=
  bool_decide (layout p = horizontal)
  || bool_decide (direction p = direction_horizontal).

Definition _mappedDirectionForNormalization (p : Props) : MappedDirection :=
  match direction p with
  | direction_horizontal | direction_vertical => mapped_ltr
  | ltr => mapped_ltr
  | rtl => mapped_rtl
  end.

Definition _widthPropAsNumber (p : Props) : Z := width p.

Definition constructor (p : Props) : Instance :=
  let ip0 := initInstanceProps p in
  let '(scrollOffset, initialNormalizedScrollLeft, ip, calls) :=
    if isHorizontal p then
      let mappedDirection := _mappedDirectionForNormalization p in
      let width := _widthPropAsNumber p in
      let (estimatedWidth, ip1) := getEstimatedTotalSize p ip0 in
      let scrollOffset :=
        match initialScrollOffset p with
        | Some offset => offset
        | None =>
            normalizeScrollLeft mappedDirection 0
              (Z.min width estimatedWidth) estimatedWidth
        end in
      (scrollOffset,
       normalizeScrollLeft mappedDirection scrollOffset width estimatedWidth,
       ip1, [CallGetEstimatedTotalSize])
    else
      (match initialScrollOffset p with Some offset => offset | None => 0 end,
       0, ip0, [])
  in
  {| state :=
       {| isScrolling := false;
          scrollDirection := forward;
          scrollOffset := scrollOffset;
          normalizedScrollLeft := Some initialNormalizedScrollLeft;
          scrollUpdateWasRequested := false |};
     _instanceProps := ip;
     _outerRef := None;
     _resetIsScrollingTimeoutId := None;
     _callOnItemsRendered_lastArgs := None;
     _callOnScroll_lastArgs := None;
     _getItemStyleCache_lastArgs := None;
     itemStyleCache := ∅;
     updateQueue := [];
     pendingTimeouts := [];
     nextTimeoutID := O;
     trace := calls |}.

Definition scrollTo (p : Props) (offset : Z) : M unit :=
  '(normalizedScrollLeft', scrollOffset') ←
    (if isHorizontal p then
       scrollWidth ← invoke CallGetEstimatedTotalSize (getEstimatedTotalSize p);
       let mappedDirection := _mappedDirectionForNormalization p in
       let width := _widthPropAsNumber p in
       let normalized :=
         normalizeScrollLeft mappedDirection offset width scrollWidth in
       if normalized <? 0 then
         let normalized := 0 in
         mret (Some normalized,
               normalizeScrollLeft mappedDirection normalized width scrollWidth)
       else mret (Some normalized, offset)
     else mret (None, Z.max 0 offset));
  setState
    (λ prevState,
       if bool_decide (scrollOffset prevState = scrollOffset') then None
       else
         let directionCalculation :=
           if isHorizontal p
           then js_lt (normalizedScrollLeft prevState) normalizedScrollLeft'
           else scrollOffset prevState <? scrollOffset' in
         Some {| isScrolling := isScrolling prevState;
                 scrollDirection :=
                   if directionCalculation then forward else backward;
                 scrollOffset := scrollOffset';
                 normalizedScrollLeft := normalizedScrollLeft';
                 scrollUpdateWasRequested := true |})
    (Some ResetIsScrollingDebounced).

Definition scrollToItem (p : Props) (index : Z) (align : ScrollToAlign)
    : M unit :=
  s ← read state;
  let index := Z.max 0 (Z.min index (itemCount p - 1)) in
  '(newNormalizedScrollOffset, browserOffset, scrollDirection') ←
    (if isHorizontal p then
       newNormalizedScrollOffset ←
         invoke (CallGetOffsetForIndexAndAlignment index align
                   (normalizedScrollLeft s))
           (getOffsetForIndexAndAlignment p index align
              (normalizedScrollLeft s));
       startIndex ←
         invoke (CallGetStartIndexForOffset (Some newNormalizedScrollOffset))
           (getStartIndexForOffset p (Some newNormalizedScrollOffset));
       stopIndex ←
         invoke (CallGetStopIndexForStartIndex startIndex
                   (Some newNormalizedScrollOffset))
           (getStopIndexForStartIndex p startIndex
              (Some newNormalizedScrollOffset));
       let scrollDirection' :=
         if js_lt (normalizedScrollLeft s) (Some newNormalizedScrollOffset)
         then forward else backward in
       let overscanForward :=
         match scrollDirection' with
         | forward => Z.max 1 (js_or_1 (overscanCount p))
         | backward => 1
         end in
       let measured :=
         Z.max 0 (Z.min (itemCount p - 1) (stopIndex + overscanForward)) in
       invoke (CallGetItemOffset measured) (getItemOffset p measured);;
       newEstimatedTotalWidth ←
         invoke CallGetEstimatedTotalSize (getEstimatedTotalSize p);
       mret (Some newNormalizedScrollOffset,
             normalizeScrollLeft (_mappedDirectionForNormalization p)
               newNormalizedScrollOffset
               (Z.min (_widthPropAsNumber p) newEstimatedTotalWidth)
               newEstimatedTotalWidth,
             scrollDirection')
     else
       browserOffset ←
         invoke (CallGetOffsetForIndexAndAlignment index align
                   (Some (scrollOffset s)))
           (getOffsetForIndexAndAlignment p index align
              (Some (scrollOffset s)));
       mret (None, browserOffset,
             if scrollOffset s <? browserOffset then forward else backward));
  setState
    (λ prevState,
       if bool_decide (scrollOffset prevState = browserOffset) then None
       else
         Some {| isScrolling := isScrolling prevState;
                 scrollDirection := scrollDirection';
                 scrollOffset := browserOffset;
                 normalizedScrollLeft := newNormalizedScrollOffset;
                 scrollUpdateWasRequested := true |})
    (Some ResetIsScrollingDebounced).

(** [memoizeOne]: the wrapped function runs only when the argument tuple
    differs from the one of the previous call. *)
Definition _callOnItemsRendered
    (overscanStartIndex overscanStopIndex visibleStartIndex visibleStopIndex
       : Z) : M unit :=
  let args := (overscanStartIndex, overscanStopIndex,
               visibleStartIndex, visibleStopIndex) in
  last ← read _callOnItemsRendered_lastArgs;
  if bool_decide (last = Some args) then mret tt
  else
    emit (OnItemsRendered overscanStartIndex overscanStopIndex
            visibleStartIndex visibleStopIndex);;
    modify (set_callOnItemsRendered_lastArgs (Some args)).

Definition _callOnScroll
    (dir : ScrollDirection) (offset : Z) (requested : bool) : M unit :=
  let args := (dir, offset, requested) in
  last ← read _callOnScroll_lastArgs;
  if bool_decide (last = Some args) then mret tt
  else
    emit (OnScroll dir offset requested);;
    modify (set_callOnScroll_lastArgs (Some args)).

(** [memoizeOne((_, __, ___) => ({}))]: a new, empty cache object for a new
    argument tuple, the object of the previous call otherwise. *)
Definition _getItemStyleCache (args : StyleCacheArgs) : M unit :=
  last ← read _getItemStyleCache_lastArgs;
  if bool_decide (last = Some args) then mret tt
  else
    modify (set_itemStyleCache ∅);;
    modify (set_getItemStyleCache_lastArgs (Some args)).

(** The offset [_getRangeToRender] drives the strategy with. *)
Definition offsetToUse (p : Props) (s : State) : option Z :=
  if bool_decide (layout p = vertical)
     || bool_decide (direction p = direction_vertical)
  then Some (scrollOffset s)
  else normalizedScrollLeft s.

Definition _getRangeToRender (p : Props) : M (Z * Z * Z * Z) :=
  s ← read state;
  if bool_decide (itemCount p = 0) then mret (0, 0, 0, 0)
  else
    let offsetToUse := offsetToUse p s in
    startIndex ←
      invoke (CallGetStartIndexForOffset offsetToUse)
        (getStartIndexForOffset p offsetToUse);
    stopIndex ←
      invoke (CallGetStopIndexForStartIndex startIndex offsetToUse)
        (getStopIndexForStartIndex p startIndex offsetToUse);
    let overscanBackward :=
      if negb (isScrolling s) || bool_decide (scrollDirection s = backward)
      then Z.max 1 (overscanCount p) else 1 in
    let overscanForward :=
      if negb (isScrolling s) || bool_decide (scrollDirection s = forward)
      then Z.max 1 (overscanCount p) else 1 in
    mret (Z.max 0 (startIndex - overscanBackward),
          Z.max 0 (Z.min (itemCount p - 1) (stopIndex + overscanForward)),
          startIndex,
          stopIndex).

Definition _callPropsCallbacks (p : Props) : M unit :=
  (if onItemsRendered p then
     if 0 <? itemCount p then
       '(overscanStartIndex, overscanStopIndex,
         visibleStartIndex, visibleStopIndex) ← _getRangeToRender p;
       _callOnItemsRendered overscanStartIndex overscanStopIndex
         visibleStartIndex visibleStopIndex
     else mret tt
   else mret tt);;
  if onScroll p then
    s ← read state;
    _callOnScroll (scrollDirection s) (scrollOffset s)
      (scrollUpdateWasRequested s)
  else mret tt.

Definition _getItemStyle (p : Props) (index : Z) : M ItemStyle :=
  let reset := shouldResetStyleCacheOnItemSizeChange in
  _getItemStyleCache
    (ArgsOfProps (if reset then Some (itemSize p) else None)
                 (if reset then Some (layout p) else None)
                 (if reset then Some (direction p) else None));;
  cache ← read itemStyleCache;
  match cache !! index with
  | Some style => mret style
  | None =>
      offset ← invoke (CallGetItemOffset index) (getItemOffset p index);
      size ← invoke (CallGetItemSize index) (getItemSize p index);
      let style :=
        {| style_side :=
             if bool_decide (direction p = rtl) then side_right
             else side_left;
           style_side_value := if isHorizontal p then offset else 0;
           style_top := if negb (isHorizontal p) then offset else 0;
           style_height := if negb (isHorizontal p) then Some size else None;
           style_width := if isHorizontal p then Some size else None |} in
      modify (λ i, set_itemStyleCache (<[index := style]> (itemStyleCache i)) i);;
      mret style
  end.

(** [render]: the children it creates and the estimated total size it
    gives the inner element.  Keys are those of [defaultItemKey]. *)
Definition render (p : Props) : M (list Item * Z) :=
  s ← read state;
  '(startIndex, stopIndex, _, _) ← _getRangeToRender p;
  items ←
    (if 0 <? itemCount p then
       mapM (λ index,
               style ← _getItemStyle p index;
               mret {| item_index := index;
                       item_key := index;
                       item_isScrolling :=
                         if useIsScrolling p then Some (isScrolling s)
                         else None;
                       item_style := style |})
            (seqZ startIndex (stopIndex - startIndex + 1))
     else mret []);
  estimatedTotalSize ←
    invoke CallGetEstimatedTotalSize (getEstimatedTotalSize p);
  mret (items, estimatedTotalSize).

Definition _onScrollHorizontal (p : Props) (event : ScrollEvent) : M unit :=
  setState
    (λ prevState,
       if bool_decide (scrollOffset prevState = scrollLeft event) then None
       else
         let normalized :=
           normalizeScrollLeft (_mappedDirectionForNormalization p)
             (scrollLeft event) (clientWidth event) (scrollWidth event) in
         Some {| isScrolling := true;
                 scrollDirection :=
                   if js_lt (normalizedScrollLeft prevState) (Some normalized)
                   then forward else backward;
                 scrollOffset := scrollLeft event;
                 normalizedScrollLeft := Some normalized;
                 scrollUpdateWasRequested := false |})
    (Some ResetIsScrollingDebounced).

Definition _onScrollVertical (p : Props) (event : ScrollEvent) : M unit :=
  setState
    (λ prevState,
       if bool_decide (scrollOffset prevState = scrollTop event) then None
       else
         Some {| isScrolling := true;
                 scrollDirection :=
                   if scrollOffset prevState <? scrollTop event
                   then forward else backward;
                 scrollOffset := scrollTop event;
                 normalizedScrollLeft := normalizedScrollLeft prevState;
                 scrollUpdateWasRequested := false |})
    (Some ResetIsScrollingDebounced).

(** The handler [render] attaches to the outer element. *)
Definition onScrollHandler (p : Props) (event : ScrollEvent) : M unit :=
  if isHorizontal p then _onScrollHorizontal p event
  else _onScrollVertical p event.

(** The [outerRef] prop, which only receives the element, is left out. *)
Definition _outerRefSetter (ref : option OuterElement) : M unit :=
  modify (set_outerRef ref).

Definition _resetIsScrollingDebounced : M unit :=
  id ← read _resetIsScrollingTimeoutId;
  match id with
  | Some id => cancelTimeout id
  | None => mret tt
  end;;
  id' ← requestTimeout IS_SCROLLING_DEBOUNCE_INTERVAL;
  modify (set_resetIsScrollingTimeoutId (Some id')).

Definition _resetIsScrolling : M unit :=
  modify (set_resetIsScrollingTimeoutId None);;
  setState
    (λ prevState,
       Some {| isScrolling := false;
               scrollDirection := scrollDirection prevState;
               scrollOffset := scrollOffset prevState;
               normalizedScrollLeft := normalizedScrollLeft prevState;
               scrollUpdateWasRequested := scrollUpdateWasRequested prevState |})
    (Some ClearItemStyleCache).

(** Assignments to [scrollLeft] and [scrollTop] of the outer element. *)
Definition writeScrollLeft (el : OuterElement) (v : Z) : M unit :=
  emit (WriteScrollLeft v);;
  modify (set_outerRef
            (Some {| el_scrollLeft := v; el_scrollTop := el_scrollTop el;
                     el_scrollWidth := el_scrollWidth el |})).

Definition writeScrollTop (el : OuterElement) (v : Z) : M unit :=
  emit (WriteScrollTop v);;
  modify (set_outerRef
            (Some {| el_scrollLeft := el_scrollLeft el; el_scrollTop := v;
                     el_scrollWidth := el_scrollWidth el |})).

Definition componentDidMount (p : Props) : M unit :=
  ref ← read _outerRef;
  match initialScrollOffset p, ref with
  | Some offset, Some el =>
      if isHorizontal p then writeScrollLeft el offset
      else writeScrollTop el offset
  | _, _ => mret tt
  end;;
  _callPropsCallbacks p.

Definition componentDidUpdate (p : Props) : M unit :=
  s ← read state;
  ref ← read _outerRef;
  match scrollUpdateWasRequested s, ref with
  | true, Some el =>
      if isHorizontal p then
        writeScrollLeft el (scrollOffset s);;
        let normalized :=
          normalizeScrollLeft (_mappedDirectionForNormalization p)
            (scrollOffset s) (_widthPropAsNumber p) (el_scrollWidth el) in
        setState
          (λ prevState,
             Some {| isScrolling := isScrolling prevState;
                     scrollDirection := scrollDirection prevState;
                     scrollOffset := scrollOffset prevState;
                     normalizedScrollLeft := Some normalized;
                     scrollUpdateWasRequested :=
                       scrollUpdateWasRequested prevState |})
          None
      else writeScrollTop el (scrollOffset s)
  | _, _ => mret tt
  end;;
  _callPropsCallbacks p.

Definition componentWillUnmount : M unit :=
  id ← read _resetIsScrollingTimeoutId;
  match id with
  | Some id => cancelTimeout id
  | None => mret tt
  end.

(** ** React's processing of queued updates *)

Definition runCallback (cb : Callback) : M unit :=
  match cb with
  | ResetIsScrollingDebounced => _resetIsScrollingDebounced
  | ClearItemStyleCache => _getItemStyleCache ArgsReset
  end.

(** The state after the queued updaters, each applied to the result of the
    previous one; an updater that returns [null] leaves the state as it is. *)
Definition applyUpdates (q : list Update) (s : State) : State :=
  foldl (λ s u, default s (updater u s)) s q.

(** One pass of the work loop: take the queue, compute the new state,
    re-render and run [componentDidUpdate] when the state is not shallowly
    equal to the previous one ([PureComponent]), then run the completion
    callbacks of the processed updates. *)
Definition commitUpdates (p : Props) : M unit :=
  q ← read updateQueue;
  modify (set_updateQueue []);;
  prev ← read state;
  let next := applyUpdates q prev in
  modify (set_state next);;
  (if bool_decide (next = prev) then mret tt
   else render p;; componentDidUpdate p);;
  forEach runCallback (omap callback q).

(** React gives up after this many updates nested in commit callbacks. *)
Definition NESTED_UPDATE_LIMIT : nat := 50.

Fixpoint flushNested (budget : nat) (p : Props) : M unit :=
  commitUpdates p;;
  q ← read updateQueue;
  match q, budget with
  | [], _ => mret tt
  | _ :: _, O => mret tt
  | _ :: _, S budget' => flushNested budget' p
  end.

Definition flushUpdates (p : Props) : M unit :=
  flushNested NESTED_UPDATE_LIMIT p.

(** ** What the host can do with a mounted list *)

Inductive HostEvent :=
| HostScroll (event : ScrollEvent)
| HostScrollTo (offset : Z)
| HostScrollToItem (index : Z) (align : ScrollToAlign)
| HostTimeout (id : TimeoutID)
| HostRender (propsChanged : bool).

(** The timer module fires a pending timeout: [_resetIsScrolling] runs. *)
Definition fireTimeout (id : TimeoutID) : M unit :=
  modify (λ i, set_pendingTimeouts
                 (filter (λ t, t ≠ id) (pendingTimeouts i)) i);;
  _resetIsScrolling.

(** An entry point runs, then React processes what it queued.  [HostRender]
    is a re-render by the parent, with the props of that render.  [List]
    extends [PureComponent] and no state update is pending then, so React
    calls [render] and [componentDidUpdate] only when the props are not
    shallowly equal to those of the previous render; [propsChanged] tells
    which (the comparison covers props such as [children], [itemData] and
    [style], and compares callbacks by identity). *)
Definition dispatch (p : Props) (e : HostEvent) : M unit :=
  match e with
  | HostScroll event => onScrollHandler p event;; flushUpdates p
  | HostScrollTo offset => scrollTo p offset;; flushUpdates p
  | HostScrollToItem index align => scrollToItem p index align;; flushUpdates p
  | HostTimeout id => fireTimeout id;; flushUpdates p
  | HostRender propsChanged =>
      (if propsChanged then render p;; componentDidUpdate p else mret tt);;
      flushUpdates p
  end.

Definition enabled (e : HostEvent) (i : Instance) : Prop :=
  match e with
  | HostTimeout id => id ∈ pendingTimeouts i
  | _ => True
  end.

(** Mounting: construction, first render, ref attachment,
    [componentDidMount]. *)
Definition mount (p : Props) (el : OuterElement) : Instance :=
  exec (render p;; _outerRefSetter (Some el);; componentDidMount p;;
        flushUpdates p)
       (constructor p).

(** The instances a host can bring about; the props may differ from one
    event to the next. *)
Inductive reachable : Instance → Prop :=
| reachable_mount p el : reachable (mount p el)
| reachable_dispatch p e i :
    reachable i → enabled e i → reachable (exec (dispatch p e) i).

End Component.

(** ** A concrete list, for evaluating the component *)

(** Modelled from the spec: [normalizeScrollLeft] of [./domHelpers] is not
    part of the file.  Left-to-right leaves the offset unchanged;
    right-to-left gives content extent minus viewport extent minus offset,
    clamped to be at least zero. *)
Definition spec_normalizeScrollLeft
    (d : MappedDirection) (scrollLeft clientWidth scrollWidth : Z) : Z :=
  match d with
  | mapped_ltr => scrollLeft
  | mapped_rtl => Z.max 0 (scrollWidth - clientWidth - scrollLeft)
  end.

Definition spec_dom : DomHelpers :=
  {| normalizeScrollLeft := spec_normalizeScrollLeft |}.

(** A strategy in the manner of a variable size list, for examples: every
    item measures 10, an item not yet measured is estimated at 5, the
    viewport measures 60, and [instanceProps] is the last measured index. *)
Module Example.

Definition measure (index ip : Z) : Z := Z.max ip index.

Definition clampIndex (p : Props) (index : Z) : Z :=
  Z.max 0 (Z.min (itemCount p - 1) index).

Definition totalSize (p : Props) (ip : Z) : Z :=
  (ip + 1) * 10 + (itemCount p - ip - 1) * 5.

Definition startIndexFor (p : Props) (offset : option Z) : Z :=
  clampIndex p (default 0 offset / 10).

Definition stopIndexFor (p : Props) (startIndex : Z) (offset : option Z) : Z :=
  Z.max startIndex (clampIndex p ((default 0 offset + 59) / 10)).

Definition strategy : ListStrategy :=
  {| InstanceProps := Z;
     getItemOffset := λ p index ip, (index * 10, measure index ip);
     getEstimatedTotalSize := λ p ip, (totalSize p ip, ip);
     getItemSize := λ p index ip, (10, measure index ip);
     getOffsetForIndexAndAlignment :=
       λ p index align offset ip, (index * 10, measure index ip);
     getStartIndexForOffset :=
       λ p offset ip,
         (startIndexFor p offset, measure (startIndexFor p offset) ip);
     getStopIndexForStartIndex :=
       λ p startIndex offset ip,
         (stopIndexFor p startIndex offset,
          measure (stopIndexFor p startIndex offset) ip);
     initInstanceProps := λ p, -1;
     shouldResetStyleCacheOnItemSizeChange := false |}.

Definition verticalProps : Props :=
  {| direction := ltr; initialScrollOffset := None; itemCount := 1000;
     itemSize := FixedSize 10; layout := vertical; onItemsRendered := true;
     onScroll := true; overscanCount := 3; useIsScrolling := false;
     width := 60 |}.

Definition horizontalProps : Props :=
  {| direction := ltr; initialScrollOffset := None; itemCount := 1000;
     itemSize := FixedSize 10; layout := horizontal; onItemsRendered := true;
     onScroll := true; overscanCount := 3; useIsScrolling := false;
     width := 60 |}.

Definition rtlProps : Props :=
  {| direction := rtl; initialScrollOffset := None; itemCount := 1000;
     itemSize := FixedSize 10; layout := horizontal; onItemsRendered := true;
     onScroll := true; overscanCount := 3; useIsScrolling := false;
     width := 60 |}.

Definition emptyProps : Props :=
  {| direction := ltr; initialScrollOffset := None; itemCount := 0;
     itemSize := FixedSize 10; layout := vertical; onItemsRendered := true;
     onScroll := true; overscanCount := 3; useIsScrolling := false;
     width := 60 |}.

Definition element : OuterElement :=
  {| el_scrollLeft := 0; el_scrollTop := 0; el_scrollWidth := 5000 |}.

Definition scrollEventAt (offset : Z) : ScrollEvent :=
  {| clientWidth := 60; scrollLeft := offset; scrollWidth := 5000;
     scrollTop := offset |}.

(** The vertical list, mounted. *)
Definition mounted : @Instance strategy :=
  @mount strategy spec_dom verticalProps element.

(** The same list while the user scrolls forward, at offset 400. *)
Definition scrolling : @Instance strategy :=
  @exec strategy _
    (@dispatch strategy spec_dom verticalProps (HostScroll (scrollEventAt 400)))
    mounted.

(** The right-to-left horizontal list, mounted. *)
Definition mountedRtl : @Instance strategy :=
  @mount strategy spec_dom rtlProps element.

(** The vertical list after the host reported the offset -5, as a browser
    does while it overscrolls elastically. *)
Definition overscrolled : @Instance strategy :=
  @exec strategy _
    (@dispatch strategy spec_dom verticalProps (HostScroll (scrollEventAt (-5))))
    mounted.

End Example.

(** ** Validation of the props shared by the list components *)

(** The values the validated props can hold, as far as [typeof] and the
    comparisons with [null] tell them apart. *)
Inductive JsValue :=
| JsUndefined
| JsNull
| JsNumber (value : Z)
| JsString (value : string)
| JsFunction
| JsObject.

Definition typeof (v : JsValue) : string :=
  match v with
  | JsUndefined => "undefined"
  | JsNull => "object"
  | JsNumber _ => "number"
  | JsString _ => "string"
  | JsFunction => "function"
  | JsObject => "object"
  end.

(** [v == null]. *)
Definition isNullish (v : JsValue) : bool :=
  match v with JsUndefined | JsNull => true | _ => false end.

(** [v === null ? 'null' : typeof v], the text the error messages show. *)
Definition describe (v : JsValue) : string :=
  match v with JsNull => "null" | _ => typeof v end.

(** The props [validateSharedProps] destructures, before any check: the
    direction and the layout are whatever strings the host passed. *)
Record SharedProps := {
  shared_children : JsValue;
  shared_direction : string;
  shared_height : JsValue;
  shared_layout : string;
  shared_innerTagName : JsValue;
  shared_outerTagName : JsValue;
  shared_width : JsValue;
}.

(** The two module-level weak sets of instances already warned; [None] is
    [null], their value in production and where [WeakSet] does not exist.
    An instance is known by a number. *)
Record DevWarnings := {
  devWarningsDirection : option (gset nat);
  devWarningsTagName : option (gset nat);
}.

(** The module initializer. *)
Definition initialDevWarnings (production hasWeakSet : bool) : DevWarnings :=
  if negb production && hasWeakSet
  then {| devWarningsDirection := Some ∅; devWarningsTagName := Some ∅ |}
  else {| devWarningsDirection := None; devWarningsTagName := None |}.

(** The two [console.warn] messages. *)
Inductive Warning := TagNameDeprecated | DirectionDeprecated.

(** The errors thrown, each with the text it quotes as specified. *)
Inductive ValidationError :=
| InvalidDirection (specified : string)
| InvalidLayout (specified : string)
| InvalidChildren (specified : string)
| InvalidWidth (specified : string)
| InvalidHeight (specified : string).

(** What a call leaves behind: the weak sets, the warnings it logged, and
    the error it threw, if any. *)
Record Validation := {
  warned : DevWarnings;
  warnings : list Warning;
  thrown : option ValidationError;
}.

(** [devWarnings && !devWarnings.has(instance)], then [add] and warn. *)
Definition warnOnce (set : option (gset nat)) (instance : nat) (w : Warning)
    : option (gset nat) * list Warning :=
  match set with
  | Some seen =>
      if bool_decide (instance ∈ seen) then (Some seen, [])
      else (Some ({[instance]} ∪ seen), [w])
  | None => (None, [])
  end.

Definition validateSharedProps (production : bool) (props : SharedProps)
    (instance : nat) (dev : DevWarnings) : Validation :=
  if production then {| warned := dev; warnings := []; thrown := None |}
  else
    let '(tagNames, warnedTagName) :=
      if negb (isNullish (shared_innerTagName props))
         || negb (isNullish (shared_outerTagName props))
      then warnOnce (devWarningsTagName dev) instance TagNameDeprecated
      else (devWarningsTagName dev, []) in
    let isHorizontal :=
      bool_decide (shared_direction props = "horizontal")
      || bool_decide (shared_layout props = "horizontal") in
    let direction := shared_direction props in
    let '(directions, warnedDirection, directionError) :=
      if bool_decide (direction = "horizontal")
         || bool_decide (direction = "vertical")
      then
        let '(set, w) :=
          warnOnce (devWarningsDirection dev) instance DirectionDeprecated in
        (set, w, None)
      else if bool_decide (direction = "ltr") || bool_decide (direction = "rtl")
      then (devWarningsDirection dev, [], None)
      else (devWarningsDirection dev, [], Some (InvalidDirection direction)) in
    let layout := shared_layout props in
    let error :=
      match directionError with
      | Some e => Some e
      | None =>
          if negb (bool_decide (layout = "horizontal")
                   || bool_decide (layout = "vertical"))
          then Some (InvalidLayout layout)
          else if isNullish (shared_children props)
          then Some (InvalidChildren (describe (shared_children props)))
          else if isHorizontal
                  && negb (bool_decide (typeof (shared_width props) = "number"))
          then Some (InvalidWidth (describe (shared_width props)))
          else if negb isHorizontal
                  && negb (bool_decide
                             (typeof (shared_height props) = "number"))
          then Some (InvalidHeight (describe (shared_height props)))
          else None
      end in
    {| warned := {| devWarningsDirection := directions;
                    devWarningsTagName := tagNames |};
       warnings := warnedTagName ++ warnedDirection;
       thrown := error |}.


(** Further concrete inputs. *)
Module Example2.

(** A vertical list that starts at offset 120. *)
Definition offsetProps : Props :=
  {| direction := ltr; initialScrollOffset := Some 120; itemCount := 1000;
     itemSize := FixedSize 10; layout := vertical; onItemsRendered := true;
     onScroll := true; overscanCount := 3; useIsScrolling := true;
     width := 60 |}.

(** Props as a host with the deprecated spelling passes them. *)
Definition legacyProps : SharedProps :=
  {| shared_children := JsFunction; shared_direction := "horizontal";
     shared_height := JsString "100%"; shared_layout := "vertical";
     shared_innerTagName := JsUndefined; shared_outerTagName := JsString "ul";
     shared_width := JsNumber 300 |}.

(** Props of a vertical list whose height is not a number. *)
Definition badHeightProps : SharedProps :=
  {| shared_children := JsFunction; shared_direction := "ltr";
     shared_height := JsString "100%"; shared_layout := "vertical";
     shared_innerTagName := JsUndefined; shared_outerTagName := JsUndefined;
     shared_width := JsNumber 300 |}.

End Example2.


(** The test [validateSharedProps] makes for a horizontal list. *)
Definition sharedIsHorizontal (props : SharedProps) : bool :=
  bool_decide (shared_direction props = "horizontal")
  || bool_decide (shared_layout props = "horizontal").

(** The instance is in the weak set of the warning. *)
Definition alreadyWarned (w : Warning) (instance : nat) (dev : DevWarnings)
    : Prop :=
  ∃ seen,
    match w with
    | TagNameDeprecated => devWarningsTagName dev
    | DirectionDeprecated => devWarningsDirection dev
    end = Some seen
    ∧ instance ∈ seen.


(** ** Notions used in the statements *)

Section Notions.

Context {strategy : ListStrategy} {dom : DomHelpers}.

(** The computation leaves a view of the instance as it was. *)
Definition preserves {A X} (f : Instance → X) (m : M A) : Prop :=
  ∀ i, f (exec m i) = f i.

(** What the component and the timer module know about timeouts. *)
Definition timerView (i : Instance)
    : option TimeoutID * list TimeoutID * TimeoutID :=
  (_resetIsScrollingTimeoutId i, pendingTimeouts i, nextTimeoutID i).

(** Two states that agree on every field but [normalizedScrollLeft]. *)
Definition sameScroll (s s' : State) : Prop :=
  isScrolling s' = isScrolling s
  ∧ scrollDirection s' = scrollDirection s
  ∧ scrollOffset s' = scrollOffset s
  ∧ scrollUpdateWasRequested s' = scrollUpdateWasRequested s.

(** An update that can only change [normalizedScrollLeft] and has no
    completion callback. *)
Definition normalizedOnly (u : Update) : Prop :=
  (∀ s s', updater u s = Some s' → sameScroll s s') ∧ callback u = None.

(** The update [componentDidUpdate] queues after writing [scrollLeft]. *)
Definition withNormalized (n : Z) : Update :=
  {| updater := λ prevState,
       Some {| isScrolling := isScrolling prevState;
               scrollDirection := scrollDirection prevState;
               scrollOffset := scrollOffset prevState;
               normalizedScrollLeft := Some n;
               scrollUpdateWasRequested :=
                 scrollUpdateWasRequested prevState |};
     callback := None |}.

(** What [componentDidUpdate] queues, from the state and the outer element
    it finds. *)
Definition queuedByDidUpdate (p : Props) (s : State)
    (ref : option OuterElement) : list Update :=
  match scrollUpdateWasRequested s, ref with
  | true, Some el =>
      if isHorizontal p then
        [withNormalized
           (normalizeScrollLeft (_mappedDirectionForNormalization p)
              (scrollOffset s) (_widthPropAsNumber p) (el_scrollWidth el))]
      else []
  | _, _ => []
  end.

(** The offset that drives the direction of travel: the normalized one
    for a horizontal list, the raw one for a vertical list. *)
Definition drivingOffset (p : Props) (s : State) : option Z :=
  if isHorizontal p then normalizedScrollLeft s else Some (scrollOffset s).

(** The pair of normalized and raw offset [scrollTo] settles on before it
    calls [setState], from the requested offset and the estimated total
    size the strategy answered. *)
Definition scrollToTarget (p : Props) (offset scrollWidth : Z)
    : option Z * Z :=
  if isHorizontal p then
    let normalized :=
      normalizeScrollLeft (_mappedDirectionForNormalization p) offset
        (_widthPropAsNumber p) scrollWidth in
    if normalized <? 0 then
      (Some 0,
       normalizeScrollLeft (_mappedDirectionForNormalization p) 0
         (_widthPropAsNumber p) scrollWidth)
    else (Some normalized, offset)
  else (None, Z.max 0 offset).

(** The update [scrollTo] queues for such a pair. *)
Definition scrollToUpdate (p : Props) (target : option Z * Z) : Update :=
  {| updater := λ prevState,
       if bool_decide (scrollOffset prevState = target.2) then None
       else
         Some {| isScrolling := isScrolling prevState;
                 scrollDirection :=
                   if (if isHorizontal p
                       then js_lt (normalizedScrollLeft prevState) target.1
                       else scrollOffset prevState <? target.2)
                   then forward else backward;
                 scrollOffset := target.2;
                 normalizedScrollLeft := target.1;
                 scrollUpdateWasRequested := true |};
     callback := Some ResetIsScrollingDebounced |}.

(** The update [scrollToItem] queues, from the values it computed. *)
Definition scrollToItemUpdate (newNormalizedScrollOffset : option Z)
    (browserOffset : Z) (dir : ScrollDirection) : Update :=
  {| updater := λ prevState,
       if bool_decide (scrollOffset prevState = browserOffset) then None
       else
         Some {| isScrolling := isScrolling prevState;
                 scrollDirection := dir;
                 scrollOffset := browserOffset;
                 normalizedScrollLeft := newNormalizedScrollOffset;
                 scrollUpdateWasRequested := true |};
     callback := Some ResetIsScrollingDebounced |}.

(** The instance after a strategy call that answered with [ip]. *)
Definition afterCall (e : Event) (ip : InstanceProps) (i : Instance)
    : Instance :=
  set_trace (trace i ++ [e]) (set_instanceProps ip i).

(** The computation maintains a property of the instance. *)
Definition keeps {A} (P : Instance → Prop) (m : M A) : Prop :=
  ∀ i, P i → P (exec m i).

(** At most one timeout is pending, and it is the one the component holds. *)
Definition timerInvariant (i : Instance) : Prop :=
  pendingTimeouts i = []
  ∨ ∃ t, pendingTimeouts i = [t] ∧ _resetIsScrollingTimeoutId i = Some t.

Definition isItemsRendered (e : Event) : bool :=
  match e with OnItemsRendered _ _ _ _ => true | _ => false end.

Definition isOnScroll (e : Event) : bool :=
  match e with OnScroll _ _ _ => true | _ => false end.

(** The events of one kind so far. *)
Definition callsOf (kind : Event → bool) (i : Instance) : list Event :=
  filter (λ e, kind e) (trace i).

(** The invocations of the host's [onItemsRendered] so far. *)
Definition itemsRenderedCalls : Instance → list Event :=
  callsOf isItemsRendered.

(** The invocations of the host's [onScroll] so far. *)
Definition onScrollCalls : Instance → list Event := callsOf isOnScroll.

(** The offset a scroll event reports for the layout of the props. *)
Definition rawOffset (p : Props) (event : ScrollEvent) : Z :=
  if isHorizontal p then scrollLeft event else scrollTop event.

(** The argument tuple [_callPropsCallbacks] hands to [_callOnScroll]. *)
Definition scrollTuple (s : State) : ScrollDirection * Z * bool :=
  (scrollDirection s, scrollOffset s, scrollUpdateWasRequested s).

(** The tuple last delivered to the host's [onScroll] is the committed
    one. *)
Definition hostInformed (i : Instance) : Prop :=
  _callOnScroll_lastArgs i = Some (scrollTuple (state i)).

(** The invocation of the host's [onScroll] with the tuple of a state. *)
Definition onScrollOf (s : State) : Event :=
  OnScroll (scrollDirection s) (scrollOffset s) (scrollUpdateWasRequested s).

(** What the memoized [_callOnScroll] adds to the invocations of [onScroll]
    when it is called with the tuple of [s] and [last] is the tuple of the
    previous call. *)
Definition delivery (last : option (ScrollDirection * Z * bool)) (s : State)
    : list Event :=
  if bool_decide (last = Some (scrollTuple s)) then [] else [onScrollOf s].

Definition isDomWrite (e : Event) : bool :=
  match e with WriteScrollLeft _ | WriteScrollTop _ => true | _ => false end.

(** The scroll position of the outer element along the axis of the list. *)
Definition elementOffset (p : Props) (el : OuterElement) : Z :=
  if isHorizontal p then el_scrollLeft el else el_scrollTop el.

(** The outer element is attached and shows the committed offset. *)
Definition domFollows (p : Props) (i : Instance) : Prop :=
  ∃ el, _outerRef i = Some el ∧ elementOffset p el = scrollOffset (state i).

(** The outer element after an assignment to the scroll position along the
    axis of the list. *)
Definition withElementOffset (p : Props) (v : Z) (el : OuterElement)
    : OuterElement :=
  if isHorizontal p
  then {| el_scrollLeft := v; el_scrollTop := el_scrollTop el;
          el_scrollWidth := el_scrollWidth el |}
  else {| el_scrollLeft := el_scrollLeft el; el_scrollTop := v;
          el_scrollWidth := el_scrollWidth el |}.

(** What the memoized [_getItemStyleCache] holds. *)
Definition styleView (i : Instance)
    : option StyleCacheArgs * gmap Z ItemStyle :=
  (_getItemStyleCache_lastArgs i, itemStyleCache i).

(** A cache that holds styles was handed out for arguments taken from the
    props, not for the arguments of the reset. *)
Definition cacheCoherent (i : Instance) : Prop :=
  itemStyleCache i = ∅
  ∨ ∃ a b c, _getItemStyleCache_lastArgs i = Some (ArgsOfProps a b c).

(** The arguments [_getItemStyle] calls [_getItemStyleCache] with. *)
Definition styleArgs (p : Props) : StyleCacheArgs :=
  ArgsOfProps
    (if shouldResetStyleCacheOnItemSizeChange then Some (itemSize p) else None)
    (if shouldResetStyleCacheOnItemSizeChange then Some (layout p) else None)
    (if shouldResetStyleCacheOnItemSizeChange then Some (direction p)
     else None).

(** The effect of [_resetIsScrollingDebounced] on the timer view. *)
Definition armView (v : option TimeoutID * list TimeoutID * TimeoutID)
    : option TimeoutID * list TimeoutID * TimeoutID :=
  let '(held, pending, next) := v in
  (Some next,
   match held with
   | Some id => filter (λ t, t ≠ id) pending
   | None => pending
   end ++ [next],
   S next).

(** The effect of completion callbacks on the timer view. *)
Definition callbacksView (cbs : list Callback)
    (v : option TimeoutID * list TimeoutID * TimeoutID)
    : option TimeoutID * list TimeoutID * TimeoutID :=
  foldl (λ v cb,
           match cb with
           | ResetIsScrollingDebounced => armView v
           | ClearItemStyleCache => v
           end) v cbs.

(** The index [scrollToItem] works with. *)
Definition clampedIndex (p : Props) (index : Z) : Z :=
  Z.max 0 (Z.min index (itemCount p - 1)).


(** The update [_resetIsScrolling] queues. *)
Definition clearMotionUpdate : Update :=
  {| updater := λ prevState,
       Some {| isScrolling := false;
               scrollDirection := scrollDirection prevState;
               scrollOffset := scrollOffset prevState;
               normalizedScrollLeft := normalizedScrollLeft prevState;
               scrollUpdateWasRequested :=
                 scrollUpdateWasRequested prevState |};
     callback := Some ClearItemStyleCache |}.


End Notions.

(** ** Properties *)

Section Properties.

Context {strategy : ListStrategy} {dom : DomHelpers}.

(** *** The monad *)

Lemma exec_bind {A B} (m : M A) (k : A → M B) i :
  exec (m ≫= k) i = exec (k (eval m i)) (exec m i).
Proof. unfold exec, eval, mbind, M_bind. by destruct (m i). Qed.

Lemma eval_bind {A B} (m : M A) (k : A → M B) i :
  eval (m ≫= k) i = eval (k (eval m i)) (exec m i).
Proof. unfold exec, eval, mbind, M_bind. by destruct (m i). Qed.

Lemma exec_ret {A} (a : A) i : exec (mret a) i = i.
Proof. done. Qed.

Lemma exec_read {A} (f : Instance → A) i : exec (read f) i = i.
Proof. done. Qed.

Lemma eval_read {A} (f : Instance → A) i : eval (read f) i = f i.
Proof. done. Qed.

Lemma exec_modify f i : exec (modify f) i = f i.
Proof. done. Qed.

(** *** Frame rules *)

Lemma preserves_ret {A X} (f : Instance → X) (a : A) : preserves f (mret a).
Proof. done. Qed.

Lemma preserves_read {A X} (f : Instance → X) (g : Instance → A) :
  preserves f (read g).
Proof. done. Qed.

Lemma preserves_bind {A B X} (f : Instance → X) (m : M A) (k : A → M B) :
  preserves f m → (∀ a, preserves f (k a)) → preserves f (m ≫= k).
Proof. intros Hm Hk i. rewrite exec_bind, Hk. apply Hm. Qed.

Lemma preserves_modify {X} (f : Instance → X) g :
  (∀ i, f (g i) = f i) → preserves f (modify g).
Proof. intros H i. apply H. Qed.

Lemma preserves_emit {X} (f : Instance → X) e :
  (∀ i tr, f (set_trace tr i) = f i) → preserves f (emit e).
Proof. intros H i. apply H. Qed.

Lemma preserves_invoke {X} (f : Instance → X) e g :
  (∀ i tr ip, f (set_trace tr (set_instanceProps ip i)) = f i) →
  preserves f (invoke e g).
Proof.
  intros H i. unfold exec, invoke.
  destruct (g (_instanceProps i)) as [r ip]. apply H.
Qed.

Lemma preserves_mapM {A B X} (f : Instance → X) (g : A → M B) l :
  (∀ a, preserves f (g a)) → preserves f (mapM g l).
Proof.
  intros Hg. induction l as [|a l IH]; [done|]. cbn [mapM].
  apply preserves_bind; [apply Hg|]. intros b.
  apply preserves_bind; [apply IH|]. intros bs. apply preserves_ret.
Qed.

Lemma preserves_forEach {A X} (f : Instance → X) (g : A → M unit) l :
  (∀ a, preserves f (g a)) → preserves f (forEach g l).
Proof.
  intros Hg. induction l as [|a l IH]; [done|]. cbn [forEach].
  apply preserves_bind; [apply Hg|]. intros _. apply IH.
Qed.

Lemma callsOf_snoc kind (i : Instance) e :
  kind e = false → filter (λ e, kind e) (trace i ++ [e]) = callsOf kind i.
Proof.
  intros He. unfold callsOf. rewrite filter_app, filter_cons_False.
  - apply app_nil_r.
  - rewrite He. auto.
Qed.

Lemma emit_calls kind e : kind e = false → preserves (callsOf kind) (emit e).
Proof. intros He i. by apply callsOf_snoc. Qed.

Lemma invoke_calls kind e g :
  kind e = false → preserves (callsOf kind) (invoke e g).
Proof.
  intros He i. unfold exec, invoke.
  destruct (g (_instanceProps i)) as [r ip]. by apply callsOf_snoc.
Qed.

Lemma requestTimeout_calls kind delay :
  kind (RequestTimeout O delay) = false
  → (∀ id, kind (RequestTimeout id delay) = kind (RequestTimeout O delay))
  → preserves (callsOf kind) (requestTimeout delay).
Proof. intros H0 H i. apply callsOf_snoc. by rewrite H. Qed.

Lemma cancelTimeout_calls kind id :
  kind (CancelTimeout id) = false
  → preserves (callsOf kind) (cancelTimeout id).
Proof. intros H i. by apply callsOf_snoc. Qed.

(** Splits a frame goal along the structure of the computation. *)
Ltac frame_step :=
  lazymatch goal with
  | |- preserves _ (mbind _ _) => apply preserves_bind; [|intros]
  | |- preserves _ (mret _) => apply preserves_ret
  | |- preserves _ (read _) => apply preserves_read
  | |- preserves _ (modify _) => apply preserves_modify; intros; reflexivity
  | |- preserves _ (emit _) =>
      first [apply preserves_emit; intros; reflexivity
            |apply emit_calls; reflexivity]
  | |- preserves _ (invoke _ _) =>
      first [apply preserves_invoke; intros; reflexivity
            |apply invoke_calls; reflexivity]
  | |- preserves (callsOf _) (requestTimeout _) =>
      apply requestTimeout_calls; [reflexivity|intros; reflexivity]
  | |- preserves (callsOf _) (cancelTimeout _) =>
      apply cancelTimeout_calls; reflexivity
  | |- preserves _ (mapM _ _) => apply preserves_mapM; intros
  | |- preserves _ (forEach _ _) => apply preserves_forEach; intros
  | |- preserves _ (if ?b then _ else _) => destruct b
  | |- preserves _ (match ?x with _ => _ end) => destruct x
  | |- preserves _ _ => solve [eauto with frame]
  end.
Ltac frame := repeat frame_step.

Create HintDb frame.

(** Unfolds the methods down to the primitive computations. *)
Ltac methods :=
  unfold dispatch, flushUpdates, fireTimeout, onScrollHandler,
    _onScrollHorizontal, _onScrollVertical, scrollTo, scrollToItem,
    componentDidMount, componentDidUpdate, componentWillUnmount,
    runCallback, _resetIsScrolling, _resetIsScrollingDebounced,
    writeScrollLeft, writeScrollTop, _outerRefSetter, render,
    _callPropsCallbacks, _getItemStyle, _getItemStyleCache,
    _getRangeToRender, _callOnItemsRendered, _callOnScroll, setState.

Ltac framed := methods; frame; try (intros ?; reflexivity).

(** *** What each method leaves alone *)

Lemma render_state p : preserves state (render p).
Proof. framed. Qed.
Lemma render_timers p : preserves timerView (render p).
Proof. framed. Qed.
Lemma render_queue p : preserves updateQueue (render p).
Proof. framed. Qed.
Lemma render_outerRef p : preserves _outerRef (render p).
Proof. framed. Qed.

Lemma callPropsCallbacks_state p : preserves state (_callPropsCallbacks p).
Proof. framed. Qed.
Lemma callPropsCallbacks_timers p :
  preserves timerView (_callPropsCallbacks p).
Proof. framed. Qed.
Lemma callPropsCallbacks_queue p :
  preserves updateQueue (_callPropsCallbacks p).
Proof. framed. Qed.
Lemma callPropsCallbacks_outerRef p :
  preserves _outerRef (_callPropsCallbacks p).
Proof. framed. Qed.

Lemma componentDidUpdate_state p : preserves state (componentDidUpdate p).
Proof. framed. Qed.
Lemma componentDidUpdate_timers p :
  preserves timerView (componentDidUpdate p).
Proof. framed. Qed.

Lemma componentDidMount_state p : preserves state (componentDidMount p).
Proof. framed. Qed.
Lemma componentDidMount_timers p :
  preserves timerView (componentDidMount p).
Proof. framed. Qed.
Lemma componentDidMount_queue p :
  preserves updateQueue (componentDidMount p).
Proof. framed. Qed.

Lemma runCallback_state cb : preserves state (runCallback cb).
Proof. destruct cb; framed. Qed.
Lemma runCallback_queue cb : preserves updateQueue (runCallback cb).
Proof. destruct cb; framed. Qed.
Lemma runCallback_outerRef cb : preserves _outerRef (runCallback cb).
Proof. destruct cb; framed. Qed.

Lemma scrollTo_state p offset : preserves state (scrollTo p offset).
Proof. framed. Qed.
Lemma scrollTo_timers p offset : preserves timerView (scrollTo p offset).
Proof. framed. Qed.
Lemma scrollToItem_state p index align :
  preserves state (scrollToItem p index align).
Proof. framed. Qed.
Lemma scrollToItem_timers p index align :
  preserves timerView (scrollToItem p index align).
Proof. framed. Qed.
Lemma onScrollHandler_state p event :
  preserves state (onScrollHandler p event).
Proof. framed. Qed.
Lemma onScrollHandler_timers p event :
  preserves timerView (onScrollHandler p event).
Proof. framed. Qed.
Lemma fireTimeout_state id : preserves state (fireTimeout id).
Proof. framed. Qed.

#[local] Hint Resolve render_state render_timers render_queue render_outerRef
  callPropsCallbacks_state callPropsCallbacks_timers callPropsCallbacks_queue
  callPropsCallbacks_outerRef componentDidUpdate_state
  componentDidUpdate_timers componentDidMount_state componentDidMount_timers
  componentDidMount_queue runCallback_state runCallback_queue
  runCallback_outerRef scrollTo_state scrollTo_timers scrollToItem_state
  scrollToItem_timers onScrollHandler_state onScrollHandler_timers
  fireTimeout_state : frame.

(** *** One pass of the work loop *)

Lemma commitUpdates_exec p i :
  let next := applyUpdates (updateQueue i) (state i) in
  exec (commitUpdates p) i =
  exec (forEach runCallback (omap callback (updateQueue i)))
    (exec (if bool_decide (next = state i) then mret tt
           else render p;; componentDidUpdate p)
       (set_state next (set_updateQueue [] i))).
Proof. unfold commitUpdates. by rewrite !exec_bind. Qed.

Lemma commitUpdates_state p i :
  state (exec (commitUpdates p) i) = applyUpdates (updateQueue i) (state i).
Proof.
  rewrite commitUpdates_exec. cbn zeta.
  assert (preserves state
            (forEach runCallback (omap callback (updateQueue i)))) as ->
    by frame.
  case_bool_decide; [done|].
  assert (preserves state (render p;; componentDidUpdate p)) as -> by frame.
  done.
Qed.

Lemma componentDidUpdate_queue p i :
  updateQueue (exec (componentDidUpdate p) i) =
  updateQueue i ++ queuedByDidUpdate p (state i) (_outerRef i).
Proof.
  unfold componentDidUpdate. rewrite !exec_bind, callPropsCallbacks_queue.
  rewrite !eval_read, !exec_read. unfold queuedByDidUpdate.
  destruct (scrollUpdateWasRequested (state i)), (_outerRef i) as [el|];
    try (symmetry; apply app_nil_r).
  destruct (isHorizontal p); [done|]. symmetry; apply app_nil_r.
Qed.

Lemma componentDidUpdate_scrollWidth p i :
  el_scrollWidth <$> _outerRef (exec (componentDidUpdate p) i) =
  el_scrollWidth <$> _outerRef i.
Proof.
  unfold componentDidUpdate.
  rewrite !exec_bind, callPropsCallbacks_outerRef.
  rewrite !eval_read, !exec_read.
  destruct (scrollUpdateWasRequested (state i)), (_outerRef i) as [el|] eqn:E;
    rewrite ?exec_ret, ?E; try done.
  by destruct (isHorizontal p).
Qed.

Lemma flushNested_exec n p i :
  exec (flushNested n p) i =
  let i1 := exec (commitUpdates p) i in
  match updateQueue i1, n with
  | [], _ => i1
  | _ :: _, O => i1
  | _ :: _, S n' => exec (flushNested n' p) i1
  end.
Proof.
  destruct n; cbn [flushNested]; rewrite !exec_bind, eval_read, exec_read;
    cbn zeta; by destruct (updateQueue (exec (commitUpdates p) i)).
Qed.

(** An empty queue: the pass changes nothing. *)
Lemma commitUpdates_idle p i :
  updateQueue i = [] → exec (commitUpdates p) i = set_updateQueue [] i.
Proof.
  intros Hq. rewrite commitUpdates_exec. cbn zeta. rewrite Hq. cbn.
  rewrite bool_decide_eq_true_2 by done. destruct i; cbn in *; by subst.
Qed.

Lemma set_updateQueue_same i : set_updateQueue (updateQueue i) i = i.
Proof. by destruct i. Qed.

(** The queue a pass leaves, when it re-renders and when it does not. *)
Lemma commitUpdates_queue p i :
  let next := applyUpdates (updateQueue i) (state i) in
  updateQueue (exec (commitUpdates p) i) =
  if bool_decide (next = state i) then []
  else queuedByDidUpdate p next (_outerRef i).
Proof.
  rewrite commitUpdates_exec. cbn zeta.
  assert (preserves updateQueue
            (forEach runCallback (omap callback (updateQueue i)))) as ->
    by frame.
  case_bool_decide; [done|].
  rewrite exec_bind, componentDidUpdate_queue.
  by rewrite render_queue, render_state, render_outerRef.
Qed.

Lemma commitUpdates_scrollWidth p i :
  el_scrollWidth <$> _outerRef (exec (commitUpdates p) i) =
  el_scrollWidth <$> _outerRef i.
Proof.
  rewrite commitUpdates_exec. cbn zeta.
  assert (preserves _outerRef
            (forEach runCallback (omap callback (updateQueue i)))) as ->
    by frame.
  case_bool_decide; [done|].
  by rewrite exec_bind, componentDidUpdate_scrollWidth, render_outerRef.
Qed.

(** *** Queued updates *)

Lemma applyUpdates_snoc q u s :
  applyUpdates (q ++ [u]) s =
  default (applyUpdates q s) (updater u (applyUpdates q s)).
Proof. unfold applyUpdates. by rewrite foldl_app. Qed.

Lemma sameScroll_refl s : sameScroll s s.
Proof. by repeat split. Qed.

Lemma sameScroll_trans s1 s2 s3 :
  sameScroll s1 s2 → sameScroll s2 s3 → sameScroll s1 s3.
Proof. unfold sameScroll. intuition congruence. Qed.

Lemma applyUpdates_normalizedOnly q s :
  Forall normalizedOnly q → sameScroll s (applyUpdates q s).
Proof.
  intros Hq. revert s. induction Hq as [|u q [Hu _] _ IH]; intros s.
  - apply sameScroll_refl.
  - change (applyUpdates (u :: q) s)
      with (applyUpdates q (default s (updater u s))).
    eapply sameScroll_trans; [|apply IH].
    destruct (updater u s) as [s'|] eqn:E; [by apply Hu|].
    apply sameScroll_refl.
Qed.

Lemma withNormalized_normalizedOnly n : normalizedOnly (withNormalized n).
Proof.
  split; [|done]. intros s s' [= <-]. by repeat split.
Qed.

Lemma queuedByDidUpdate_cases p s ref :
  queuedByDidUpdate p s ref = []
  ∨ ∃ el, ref = Some el
      ∧ queuedByDidUpdate p s ref =
        [withNormalized
           (normalizeScrollLeft (_mappedDirectionForNormalization p)
              (scrollOffset s) (_widthPropAsNumber p) (el_scrollWidth el))].
Proof.
  unfold queuedByDidUpdate.
  destruct (scrollUpdateWasRequested s), ref as [el|], (isHorizontal p);
    eauto.
Qed.

Lemma queuedByDidUpdate_normalizedOnly p s ref :
  Forall normalizedOnly (queuedByDidUpdate p s ref).
Proof.
  destruct (queuedByDidUpdate_cases p s ref) as [->|(el & _ & ->)];
    [done|].
  constructor; [apply withNormalized_normalizedOnly|constructor].
Qed.

Lemma commitUpdates_normalizedOnly p i :
  Forall normalizedOnly (updateQueue (exec (commitUpdates p) i)).
Proof.
  rewrite commitUpdates_queue. cbn zeta.
  case_bool_decide; [done|]. apply queuedByDidUpdate_normalizedOnly.
Qed.

(** The scroll state after the work loop is the one the queued updaters
    give, up to the [normalizedScrollLeft] that [componentDidUpdate]
    recomputes. *)
Lemma flushNested_sameScroll n p i :
  sameScroll (applyUpdates (updateQueue i) (state i))
    (state (exec (flushNested n p) i)).
Proof.
  revert i. induction n as [|n IH]; intros i; rewrite flushNested_exec;
    cbn zeta.
  - rewrite <- (commitUpdates_state p i).
    destruct (updateQueue (exec (commitUpdates p) i)); apply sameScroll_refl.
  - destruct (updateQueue (exec (commitUpdates p) i)) eqn:E.
    + rewrite commitUpdates_state. apply sameScroll_refl.
    + eapply sameScroll_trans; [|apply IH].
      rewrite commitUpdates_state.
      apply applyUpdates_normalizedOnly. rewrite E.
      rewrite <- E. apply commitUpdates_normalizedOnly.
Qed.

(** While the work loop runs only the pass that follows a state change
    re-renders, so it ends with no update pending. *)
Lemma flushNested_exact n p i :
  queuedByDidUpdate p (applyUpdates (updateQueue i) (state i)) (_outerRef i)
    = [] →
  exec (flushNested n p) i = exec (commitUpdates p) i.
Proof.
  intros Hq. rewrite flushNested_exec. cbn zeta.
  rewrite commitUpdates_queue. cbn zeta. rewrite Hq.
  by case_bool_decide; destruct n.
Qed.

Lemma withNormalized_same s n :
  normalizedScrollLeft s = Some n → applyUpdates [withNormalized n] s = s.
Proof. destruct s. cbn. by intros ->. Qed.

Lemma flushNested_settles n p i :
  (2 ≤ n)%nat → updateQueue (exec (flushNested n p) i) = [].
Proof.
  intros Hn. rewrite flushNested_exec. cbn zeta.
  set (i1 := exec (commitUpdates p) i).
  destruct (updateQueue i1) as [|u1 q1] eqn:E1; [done|].
  destruct n as [|n]; [lia|]. rewrite flushNested_exec. cbn zeta.
  set (i2 := exec (commitUpdates p) i1).
  destruct (updateQueue i2) as [|u2 q2] eqn:E2; [done|].
  destruct n as [|n]; [lia|]. rewrite flushNested_exec. cbn zeta.
  assert (updateQueue (exec (commitUpdates p) i2) = []) as E3;
    [|by rewrite E3].
  rewrite commitUpdates_queue. cbn zeta.
  rewrite bool_decide_eq_true_2; [done|].
  (* what the first pass queued *)
  pose proof (commitUpdates_queue p i) as Q1. cbn zeta in Q1.
  fold i1 in Q1. rewrite E1 in Q1.
  case_bool_decide as C1; [done|].
  destruct (queuedByDidUpdate_cases p
              (applyUpdates (updateQueue i) (state i)) (_outerRef i))
    as [Z1|(el & Hel & Z1)]; rewrite Z1 in Q1; [done|].
  (* what the second pass queued *)
  pose proof (commitUpdates_queue p i1) as Q2. cbn zeta in Q2.
  fold i2 in Q2. rewrite E2 in Q2.
  case_bool_decide as C2; [done|].
  destruct (queuedByDidUpdate_cases p
              (applyUpdates (updateQueue i1) (state i1)) (_outerRef i1))
    as [Z2|(el1 & Hel1 & Z2)]; rewrite Z2 in Q2; [done|].
  pose proof (commitUpdates_scrollWidth p i) as W. fold i1 in W.
  rewrite Hel, Hel1 in W. injection W as W.
  pose proof (commitUpdates_state p i) as S1. fold i1 in S1.
  pose proof (commitUpdates_state p i1) as S2. fold i2 in S2.
  rewrite E2, Q2, S2, E1, Q1, S1, W.
  by apply withNormalized_same.
Qed.

Lemma flushUpdates_idle p i : updateQueue (exec (flushUpdates p) i) = [].
Proof. apply flushNested_settles. unfold NESTED_UPDATE_LIMIT. lia. Qed.

(** Between two host events React has no update pending. *)
Lemma reachable_idle i : reachable i → updateQueue i = [].
Proof.
  destruct 1 as [p el|p e i _ _].
  - unfold mount. rewrite !exec_bind. apply flushUpdates_idle.
  - destruct e; cbn [dispatch]; rewrite !exec_bind; apply flushUpdates_idle.
Qed.

(** *** The range to render *)

Lemma invoke_run e g (i : Instance) r ip :
  g (_instanceProps i) = (r, ip) →
  invoke e g i = (r, set_trace (trace i ++ [e]) (set_instanceProps ip i)).
Proof. unfold invoke. by intros ->. Qed.

(** The tuple [_getRangeToRender] returns for a list that has items, from
    the two indices the strategy answers. *)
Lemma getRangeToRender_eval p i startIndex ip1 stopIndex ip2 :
  itemCount p ≠ 0 →
  getStartIndexForOffset p (offsetToUse p (state i)) (_instanceProps i)
    = (startIndex, ip1) →
  getStopIndexForStartIndex p startIndex (offsetToUse p (state i)) ip1
    = (stopIndex, ip2) →
  eval (_getRangeToRender p) i =
  (Z.max 0 (startIndex -
            (if negb (isScrolling (state i))
                || bool_decide (scrollDirection (state i) = backward)
             then Z.max 1 (overscanCount p) else 1)),
   Z.max 0 (Z.min (itemCount p - 1)
              (stopIndex +
               (if negb (isScrolling (state i))
                   || bool_decide (scrollDirection (state i) = forward)
                then Z.max 1 (overscanCount p) else 1))),
   startIndex, stopIndex).
Proof.
  intros Hn Hstart Hstop.
  unfold eval, _getRangeToRender, mbind, M_bind, read.
  rewrite bool_decide_eq_false_2 by done.
  erewrite invoke_run by exact Hstart.
  erewrite invoke_run by exact Hstop.
  done.
Qed.

(** C1: for [itemCount >= 0], when the two indices the strategy answers
    satisfy [0 <= start <= stop <= itemCount - 1], the tuple
    [[overscanStart, overscanStop, visibleStart, visibleStop]] that
    [_getRangeToRender] returns satisfies
    [0 <= overscanStart <= visibleStart <= visibleStop <= overscanStop
     <= itemCount - 1]; for [itemCount = 0] it is [[0, 0, 0, 0]]. *)
Theorem getRangeToRender_bounds p i :
  0 ≤ itemCount p →
  (0 < itemCount p →
   ∀ startIndex ip1 stopIndex ip2,
     getStartIndexForOffset p (offsetToUse p (state i)) (_instanceProps i)
       = (startIndex, ip1) →
     getStopIndexForStartIndex p startIndex (offsetToUse p (state i)) ip1
       = (stopIndex, ip2) →
     0 ≤ startIndex ∧ startIndex ≤ stopIndex ∧ stopIndex ≤ itemCount p - 1) →
  ∃ overscanStart overscanStop visibleStart visibleStop,
    eval (_getRangeToRender p) i =
      (overscanStart, overscanStop, visibleStart, visibleStop)
    ∧ (itemCount p = 0 →
       overscanStart = 0 ∧ overscanStop = 0
       ∧ visibleStart = 0 ∧ visibleStop = 0)
    ∧ (0 < itemCount p →
       0 ≤ overscanStart ∧ overscanStart ≤ visibleStart
       ∧ visibleStart ≤ visibleStop ∧ visibleStop ≤ overscanStop
       ∧ overscanStop ≤ itemCount p - 1).
Proof.
  intros Hcount Hstrategy.
  destruct (decide (itemCount p = 0)) as [Hzero|Hitems].
  - exists 0, 0, 0, 0. split; [|split; [done|lia]].
    unfold eval, _getRangeToRender, mbind, M_bind, read.
    by rewrite bool_decide_eq_true_2.
  - destruct (getStartIndexForOffset p (offsetToUse p (state i))
                (_instanceProps i)) as [startIndex ip1] eqn:Hstart.
    destruct (getStopIndexForStartIndex p startIndex
                (offsetToUse p (state i)) ip1) as [stopIndex ip2] eqn:Hstop.
    destruct (Hstrategy ltac:(lia) _ _ _ _ eq_refl Hstop) as (H0 & H1 & H2).
    eexists _, _, _, _.
    split; [by apply (getRangeToRender_eval p i _ _ _ _ Hitems Hstart Hstop)|].
    split; [done|]. intros _.
    destruct (negb (isScrolling (state i))
              || bool_decide (scrollDirection (state i) = backward)),
             (negb (isScrolling (state i))
              || bool_decide (scrollDirection (state i) = forward)); lia.
Qed.

(** C7: with [itemCount = 1000] and [overscanCount = 3], in motion and
    scrolling forward, when the strategy answers start index 40 and stop
    index 45, [_getRangeToRender] returns [[39, 48, 40, 45]]. *)
Theorem getRangeToRender_forward_scenario p i ip1 ip2 :
  itemCount p = 1000 →
  overscanCount p = 3 →
  isScrolling (state i) = true →
  scrollDirection (state i) = forward →
  getStartIndexForOffset p (offsetToUse p (state i)) (_instanceProps i)
    = (40, ip1) →
  getStopIndexForStartIndex p 40 (offsetToUse p (state i)) ip1 = (45, ip2) →
  eval (_getRangeToRender p) i = (39, 48, 40, 45).
Proof.
  intros Hcount Hover Hmotion Hdir Hstart Hstop.
  rewrite (getRangeToRender_eval p i 40 ip1 45 ip2); [|lia|done|done].
  by rewrite Hcount, Hover, Hmotion, Hdir.
Qed.

(** *** The memoized callbacks *)


(** *** A list without items *)

Lemma render_itemsRendered p : preserves itemsRenderedCalls (render p).
Proof. unfold itemsRenderedCalls. framed. Qed.

Lemma runCallback_itemsRendered cb :
  preserves itemsRenderedCalls (runCallback cb).
Proof. unfold itemsRenderedCalls. destruct cb; framed. Qed.

Lemma callPropsCallbacks_empty p :
  itemCount p = 0 → preserves itemsRenderedCalls (_callPropsCallbacks p).
Proof.
  intros Hzero. unfold itemsRenderedCalls, _callPropsCallbacks.
  rewrite Hzero. cbn. framed.
Qed.

#[local] Hint Resolve render_itemsRendered runCallback_itemsRendered
  callPropsCallbacks_empty : frame.

Lemma componentDidMount_empty p :
  itemCount p = 0 → preserves itemsRenderedCalls (componentDidMount p).
Proof.
  intros Hzero. unfold componentDidMount, writeScrollLeft, writeScrollTop.
  frame; unfold itemsRenderedCalls; frame.
Qed.

Lemma componentDidUpdate_empty p :
  itemCount p = 0 → preserves itemsRenderedCalls (componentDidUpdate p).
Proof.
  intros Hzero.
  unfold componentDidUpdate, writeScrollLeft, writeScrollTop, setState.
  frame; unfold itemsRenderedCalls; frame.
Qed.

#[local] Hint Resolve componentDidMount_empty componentDidUpdate_empty : frame.

Lemma commitUpdates_empty p :
  itemCount p = 0 → preserves itemsRenderedCalls (commitUpdates p).
Proof. intros Hzero. unfold commitUpdates. frame. Qed.

Lemma flushNested_empty n p :
  itemCount p = 0 → preserves itemsRenderedCalls (flushNested n p).
Proof.
  intros Hzero. induction n as [|n IH]; cbn [flushNested];
    (apply preserves_bind; [by apply commitUpdates_empty|]); intros _; frame.
Qed.

Lemma dispatch_empty p e :
  itemCount p = 0 → preserves itemsRenderedCalls (dispatch p e).
Proof.
  intros Hzero.
  assert (preserves itemsRenderedCalls (flushUpdates p))
    by by apply flushNested_empty.
  destruct e as [event|offset|index align|id|[]]; cbn [dispatch];
    (apply preserves_bind; [|intros; frame]);
    try (apply preserves_bind; [|intros; frame]);
    unfold itemsRenderedCalls; framed.
Qed.

Lemma flushNested_done n p i :
  updateQueue (exec (commitUpdates p) i) = [] →
  exec (flushNested n p) i = exec (commitUpdates p) i.
Proof. intros Hq. rewrite flushNested_exec. cbn zeta. by rewrite Hq. Qed.

(** With nothing queued the work loop does nothing. *)
Lemma flushUpdates_nothing p i :
  updateQueue i = [] → exec (flushUpdates p) i = i.
Proof.
  intros Hq. unfold flushUpdates.
  rewrite flushNested_done; rewrite commitUpdates_idle by done;
    rewrite <- Hq; by rewrite set_updateQueue_same.
Qed.

Lemma callPropsCallbacks_without_items p i :
  itemCount p = 0 → onScroll p = true →
  exec (_callPropsCallbacks p) i =
  exec (_callOnScroll (scrollDirection (state i)) (scrollOffset (state i))
          (scrollUpdateWasRequested (state i))) i.
Proof.
  intros Hzero Hscroll. unfold _callPropsCallbacks.
  rewrite Hzero, Hscroll. cbn [Z.ltb Z.compare].
  rewrite exec_bind.
  assert (∀ j, exec (if onItemsRendered p then mret tt else mret tt : M unit) j
               = j) as -> by (intros j; by destruct (onItemsRendered p)).
  by rewrite exec_bind, eval_read, exec_read.
Qed.

Lemma constructor_trace p :
  trace (constructor p) = []
  ∨ trace (constructor p) = [CallGetEstimatedTotalSize].
Proof.
  unfold constructor. destruct (isHorizontal p); [|by left].
  destruct (getEstimatedTotalSize p (initInstanceProps p)). by right.
Qed.

Lemma constructor_fresh p :
  updateQueue (constructor p) = []
  ∧ pendingTimeouts (constructor p) = []
  ∧ _callOnScroll_lastArgs (constructor p) = None
  ∧ isScrolling (state (constructor p)) = false
  ∧ scrollDirection (state (constructor p)) = forward
  ∧ scrollUpdateWasRequested (state (constructor p)) = false.
Proof.
  unfold constructor. destruct (isHorizontal p); [|done].
  by destruct (getEstimatedTotalSize p (initInstanceProps p)).
Qed.

Lemma render_items_without_items p i :
  itemCount p = 0 → (eval (render p) i).1 = [].
Proof.
  intros Hzero. unfold eval, render, mbind, M_bind, read.
  rewrite Hzero. cbn [Z.ltb Z.compare].
  destruct (_getRangeToRender p i) as [[[[a b] c] d] i1].
  unfold mret, M_ret, invoke.
  by destruct (getEstimatedTotalSize p (_instanceProps i1)).
Qed.

(** What the first render and the ref attachment leave for
    [componentDidMount]. *)
Lemma before_componentDidMount p el :
  let j := exec (render p;; _outerRefSetter (Some el)) (constructor p) in
  state j = state (constructor p)
  ∧ updateQueue j = []
  ∧ _callOnScroll_lastArgs j = None
  ∧ onScrollCalls j = []
  ∧ itemsRenderedCalls j = [].
Proof.
  cbn zeta. destruct (constructor_fresh p) as (Hq & _ & Hlast & _).
  assert (preserves state (render p;; _outerRefSetter (Some el))) as ->
    by framed.
  assert (preserves updateQueue (render p;; _outerRefSetter (Some el))) as ->
    by framed.
  assert (preserves _callOnScroll_lastArgs
            (render p;; _outerRefSetter (Some el))) as -> by framed.
  assert (preserves onScrollCalls (render p;; _outerRefSetter (Some el)))
    as -> by (unfold onScrollCalls; framed).
  assert (preserves itemsRenderedCalls
            (render p;; _outerRefSetter (Some el))) as ->
    by (unfold itemsRenderedCalls; framed).
  unfold onScrollCalls, itemsRenderedCalls, callsOf.
  by destruct (constructor_trace p) as [-> | ->].
Qed.

Lemma mount_exec p el :
  mount p el =
  exec (flushUpdates p)
    (exec (componentDidMount p)
       (exec (render p;; _outerRefSetter (Some el)) (constructor p))).
Proof. unfold mount. by rewrite !exec_bind. Qed.

Lemma componentDidMount_exec p i :
  ∃ j, exec (componentDidMount p) i = exec (_callPropsCallbacks p) j
       ∧ state j = state i
       ∧ _callOnScroll_lastArgs j = _callOnScroll_lastArgs i
       ∧ onScrollCalls j = onScrollCalls i.
Proof.
  unfold componentDidMount.
  rewrite exec_bind, eval_read, exec_read, exec_bind.
  eexists. split; [reflexivity|].
  destruct (initialScrollOffset p), (_outerRef i), (isHorizontal p);
    repeat split; by apply callsOf_snoc.
Qed.

(** *** The entry points and the work loop *)

Lemma exec_invoke e g i :
  exec (invoke e g) i = afterCall e (g (_instanceProps i)).2 i.
Proof. unfold exec, invoke, afterCall. by destruct (g (_instanceProps i)). Qed.

Lemma eval_invoke e g i : eval (invoke e g) i = (g (_instanceProps i)).1.
Proof. unfold eval, invoke. by destruct (g (_instanceProps i)). Qed.

Lemma scrollTo_exec p offset i :
  let answer := getEstimatedTotalSize p (_instanceProps i) in
  exec (scrollTo p offset) i =
  let j := if isHorizontal p
           then afterCall CallGetEstimatedTotalSize answer.2 i else i in
  set_updateQueue
    (updateQueue i ++ [scrollToUpdate p (scrollToTarget p offset answer.1)]) j.
Proof.
  cbn zeta. unfold scrollTo, scrollToTarget, scrollToUpdate, exec, mbind,
    M_bind, invoke, afterCall.
  destruct (isHorizontal p) eqn:H; [|done].
  destruct (getEstimatedTotalSize p (_instanceProps i)) as [w ip]. cbn.
  by destruct (_ <? 0).
Qed.

Lemma onScrollHandler_exec p event i :
  exec (onScrollHandler p event) i =
  set_updateQueue
    (updateQueue i ++
     [{| updater := λ prevState,
           if bool_decide (scrollOffset prevState = rawOffset p event)
           then None
           else
             let s' :=
               {| isScrolling := true;
                  scrollDirection := forward;
                  scrollOffset := rawOffset p event;
                  normalizedScrollLeft :=
                    if isHorizontal p then
                      Some (normalizeScrollLeft
                              (_mappedDirectionForNormalization p)
                              (scrollLeft event) (clientWidth event)
                              (scrollWidth event))
                    else normalizedScrollLeft prevState;
                  scrollUpdateWasRequested := false |} in
             Some {| isScrolling := true;
                     scrollDirection :=
                       if js_lt (drivingOffset p prevState)
                            (drivingOffset p s')
                       then forward else backward;
                     scrollOffset := scrollOffset s';
                     normalizedScrollLeft := normalizedScrollLeft s';
                     scrollUpdateWasRequested := false |};
         callback := Some ResetIsScrollingDebounced |}]) i.
Proof.
  unfold onScrollHandler, rawOffset, drivingOffset.
  by destruct (isHorizontal p).
Qed.

Lemma set_updateQueue_twice q q' i :
  set_updateQueue q (set_updateQueue q' i) = set_updateQueue q i.
Proof. done. Qed.

Lemma set_state_same i : set_state (state i) i = i.
Proof. by destruct i. Qed.

(** An updater that returns [null]: no render, the callback still runs. *)
Lemma flushUpdates_null p i u cb :
  updateQueue i = [u] → updater u (state i) = None → callback u = Some cb →
  exec (flushUpdates p) i = exec (runCallback cb) (set_updateQueue [] i).
Proof.
  intros Hq Hnull Hcb.
  assert (applyUpdates (updateQueue i) (state i) = state i) as Happly
    by (rewrite Hq; cbn; by rewrite Hnull).
  unfold flushUpdates. rewrite flushNested_done.
  - rewrite commitUpdates_exec. cbn zeta.
    rewrite Happly, bool_decide_eq_true_2 by done.
    rewrite Hq. cbn -[exec runCallback]. rewrite Hcb. cbn [forEach].
    rewrite exec_bind, !exec_ret.
    change (state i) with (state (set_updateQueue [] i)).
    by rewrite set_state_same.
  - rewrite commitUpdates_queue. cbn zeta.
    by rewrite Happly, bool_decide_eq_true_2.
Qed.

(** An updater that changes the state without requesting a scroll update:
    one render, and the state is the one the updater returned. *)
Lemma flushUpdates_observed p i u s' :
  updateQueue i = [u] → updater u (state i) = Some s' →
  scrollUpdateWasRequested s' = false →
  state (exec (flushUpdates p) i) = s'.
Proof.
  intros Hq Hsome Hreq.
  assert (applyUpdates (updateQueue i) (state i) = s') as Happly
    by (rewrite Hq; cbn; by rewrite Hsome).
  unfold flushUpdates. rewrite flushNested_done.
  - by rewrite commitUpdates_state.
  - rewrite commitUpdates_queue. cbn zeta. rewrite Happly.
    case_bool_decide; [done|]. unfold queuedByDidUpdate. by rewrite Hreq.
Qed.

(** C3: for an observed scroll event, when the raw offset of the event is
    the committed [scrollOffset] the state stays as it is; otherwise the
    committed state has [isScrolling = true],
    [scrollUpdateWasRequested = false], the raw offset of the event as
    [scrollOffset], and [scrollDirection] is [forward] exactly when the
    driving offset ([normalizedScrollLeft] for a horizontal list, the raw
    [scrollOffset] for a vertical one) strictly increased, [backward]
    otherwise. *)
Theorem observed_scroll_event p event i :
  updateQueue i = [] →
  let prev := state i in
  let next := state (exec (dispatch p (HostScroll event)) i) in
  (rawOffset p event = scrollOffset prev → next = prev)
  ∧ (rawOffset p event ≠ scrollOffset prev →
     isScrolling next = true
     ∧ scrollUpdateWasRequested next = false
     ∧ scrollOffset next = rawOffset p event
     ∧ (isHorizontal p = true →
        normalizedScrollLeft next =
        Some (normalizeScrollLeft (_mappedDirectionForNormalization p)
                (scrollLeft event) (clientWidth event) (scrollWidth event)))
     ∧ scrollDirection next =
       if js_lt (drivingOffset p prev) (drivingOffset p next)
       then forward else backward).
Proof.
  intros Hq. cbn zeta. cbn [dispatch].
  rewrite exec_bind, onScrollHandler_exec, Hq. cbn [app].
  match goal with |- context [set_updateQueue [?u0] i] => set (u := u0) end.
  set (j := set_updateQueue [u] i).
  assert (updateQueue j = [u]) as Hj by done.
  split; intros Hraw.
  - assert (updater u (state j) = None) as Hnull
      by (cbn; by rewrite bool_decide_eq_true_2).
    rewrite (flushUpdates_null p j u ResetIsScrollingDebounced Hj Hnull)
      by done.
    by rewrite runCallback_state.
  - destruct (updater u (state j)) as [s'|] eqn:Hsome;
      cbn in Hsome; rewrite bool_decide_eq_false_2 in Hsome by done;
      [|done].
    injection Hsome as Hsome.
    rewrite (flushUpdates_observed p j u s' Hj); subst s'; cbn;
      [|by rewrite bool_decide_eq_false_2|done].
    repeat split. by intros ->.
Qed.

(** *** Programmatic scrolls *)

Lemma scrollToUpdate_offset p target s :
  scrollOffset (default s (updater (scrollToUpdate p target) s)) = target.2.
Proof. cbn. by case_bool_decide. Qed.

Lemma scrollToUpdate_isScrolling p target s :
  isScrolling (default s (updater (scrollToUpdate p target) s))
  = isScrolling s.
Proof. cbn. by case_bool_decide. Qed.

Lemma scrollToItemUpdate_offset nsl browserOffset dir s :
  scrollOffset
    (default s (updater (scrollToItemUpdate nsl browserOffset dir) s))
  = browserOffset.
Proof. cbn. by case_bool_decide. Qed.

Lemma scrollToItemUpdate_isScrolling nsl browserOffset dir s :
  isScrolling
    (default s (updater (scrollToItemUpdate nsl browserOffset dir) s))
  = isScrolling s.
Proof. cbn. by case_bool_decide. Qed.

(** The scroll offset the work loop commits is the one the last queued
    updater gives. *)
Lemma flushUpdates_offset p i :
  scrollOffset (state (exec (flushUpdates p) i))
  = scrollOffset (applyUpdates (updateQueue i) (state i)).
Proof.
  by destruct (flushNested_sameScroll NESTED_UPDATE_LIMIT p i)
    as (_ & _ & ? & _).
Qed.

Lemma flushUpdates_isScrolling p i :
  isScrolling (state (exec (flushUpdates p) i))
  = isScrolling (applyUpdates (updateQueue i) (state i)).
Proof.
  by destruct (flushNested_sameScroll NESTED_UPDATE_LIMIT p i) as (? & _).
Qed.

Lemma scrollTo_queue p offset i :
  updateQueue (exec (scrollTo p offset) i) =
  updateQueue i ++
  [scrollToUpdate p
     (scrollToTarget p offset
        (getEstimatedTotalSize p (_instanceProps i)).1)].
Proof. by rewrite scrollTo_exec. Qed.

(** C4: [scrollTo(offset)] on a vertical list commits [max(0, offset)]; on
    a horizontal list, when the requested offset normalizes to a negative
    value, the update it queues carries the normalized value 0 and the raw
    offset obtained from normalizing 0 against the estimated total size and
    the width, and that raw offset is the one committed. *)
Theorem scrollTo_commits_clamped_offset p offset i :
  let next := state (exec (dispatch p (HostScrollTo offset)) i) in
  let scrollWidth := (getEstimatedTotalSize p (_instanceProps i)).1 in
  (isHorizontal p = false → scrollOffset next = Z.max 0 offset)
  ∧ (isHorizontal p = true →
     normalizeScrollLeft (_mappedDirectionForNormalization p) offset
       (_widthPropAsNumber p) scrollWidth < 0 →
     let rederived :=
       normalizeScrollLeft (_mappedDirectionForNormalization p) 0
         (_widthPropAsNumber p) scrollWidth in
     updateQueue (exec (scrollTo p offset) i) =
       updateQueue i ++ [scrollToUpdate p (Some 0, rederived)]
     ∧ scrollOffset next = rederived).
Proof.
  cbn zeta. cbn [dispatch].
  rewrite exec_bind, flushUpdates_offset, scrollTo_queue, scrollTo_state.
  rewrite applyUpdates_snoc, scrollToUpdate_offset.
  unfold scrollToTarget.
  split; [by intros ->|]. intros -> Hneg.
  apply Z.ltb_lt in Hneg. by rewrite Hneg.
Qed.

Lemma scrollToItem_exec p index align i :
  ∃ j nsl browserOffset dir,
    exec (scrollToItem p index align) i =
    set_updateQueue
      (updateQueue i ++ [scrollToItemUpdate nsl browserOffset dir]) j
    ∧ state j = state i.
Proof.
  unfold scrollToItem.
  rewrite exec_bind, eval_read, exec_read, exec_bind.
  destruct (isHorizontal p).
  - rewrite !eval_bind, !exec_bind, !eval_invoke, !exec_invoke.
    by eexists _, _, _, _.
  - rewrite !eval_bind, !exec_bind, !eval_invoke, !exec_invoke.
    by eexists _, _, _, _.
Qed.

Lemma fireTimeout_queue id i :
  updateQueue (exec (fireTimeout id) i) =
  updateQueue i ++
  [{| updater := λ prevState,
        Some {| isScrolling := false;
                scrollDirection := scrollDirection prevState;
                scrollOffset := scrollOffset prevState;
                normalizedScrollLeft := normalizedScrollLeft prevState;
                scrollUpdateWasRequested :=
                  scrollUpdateWasRequested prevState |};
      callback := Some ClearItemStyleCache |}].
Proof. done. Qed.

(** The [isScrolling] flag after a host event. *)
Lemma dispatch_isScrolling p e i :
  updateQueue i = [] →
  isScrolling (state (exec (dispatch p e) i)) =
  match e with
  | HostScroll event =>
      if bool_decide (rawOffset p event = scrollOffset (state i))
      then isScrolling (state i) else true
  | HostTimeout _ => false
  | _ => isScrolling (state i)
  end.
Proof.
  intros Hq. destruct e as [event|offset|index align|id|[]]; cbn [dispatch];
    rewrite !exec_bind, flushUpdates_isScrolling.
  - rewrite onScrollHandler_exec, Hq. cbn.
    repeat case_bool_decide; done || congruence.
  - rewrite scrollTo_queue, scrollTo_state, Hq. cbn [app].
    apply (scrollToUpdate_isScrolling p _ (state i)).
  - destruct (scrollToItem_exec p index align i)
      as (j & nsl & browserOffset & dir & -> & Hj).
    rewrite Hq. cbn [app updateQueue set_updateQueue state]. rewrite Hj.
    apply (scrollToItemUpdate_isScrolling _ _ _ (state i)).
  - by rewrite fireTimeout_queue, Hq.
  - rewrite componentDidUpdate_queue, componentDidUpdate_state.
    rewrite render_queue, render_state, render_outerRef, Hq. cbn [app].
    by destruct (applyUpdates_normalizedOnly
                   (queuedByDidUpdate p (state i) (_outerRef i)) (state i)
                   (queuedByDidUpdate_normalizedOnly _ _ _)) as (? & _).
  - change (exec (mret tt) i) with i. by rewrite Hq.
Qed.

(** C9: neither [scrollTo] nor [scrollToItem] changes [isScrolling]: the
    state committed by a programmatic scroll has the flag of the state
    before.  A host event that changes the flag to [true] is an observed
    scroll event, one that changes it to [false] is the expiry of the
    debounce timeout. *)
Theorem programmatic_scroll_keeps_isScrolling p i :
  updateQueue i = [] →
  (∀ offset,
     isScrolling (state (exec (dispatch p (HostScrollTo offset)) i))
     = isScrolling (state i))
  ∧ (∀ index align,
       isScrolling (state (exec (dispatch p (HostScrollToItem index align)) i))
       = isScrolling (state i))
  ∧ (∀ e,
       let next := state (exec (dispatch p e) i) in
       isScrolling next ≠ isScrolling (state i) →
       (isScrolling next = true → ∃ event, e = HostScroll event)
       ∧ (isScrolling next = false → ∃ id, e = HostTimeout id)).
Proof.
  intros Hq. split; [|split].
  - intros offset. by rewrite dispatch_isScrolling.
  - intros index align. by rewrite dispatch_isScrolling.
  - intros e. cbn zeta. rewrite dispatch_isScrolling by done.
    destruct e as [event|offset|index align|id|changed]; try done.
    + case_bool_decide; [done|]. intros _. split; [eauto|done].
    + intros _. split; [done|eauto].
Qed.

(** C2: [scrollToItem] on a horizontal list calls, in this order, the
    alignment policy (which gives the normalized target), the two index
    functions, [getItemOffset] at [stopIndex + overscanForward] clamped to
    [[0, itemCount - 1]], and [getEstimatedTotalSize]; the browser offset it
    commits is the normalized target denormalized against the total size
    that last call answered, that is, the one after the measurement. *)
Theorem scrollToItem_horizontal_order
    p index align i target ip1 startIndex ip2 stopIndex ip3 itemOffset ip4
    total ip5 :
  isHorizontal p = true →
  let clamped := Z.max 0 (Z.min index (itemCount p - 1)) in
  let current := normalizedScrollLeft (state i) in
  getOffsetForIndexAndAlignment p clamped align current (_instanceProps i)
    = (target, ip1) →
  getStartIndexForOffset p (Some target) ip1 = (startIndex, ip2) →
  getStopIndexForStartIndex p startIndex (Some target) ip2
    = (stopIndex, ip3) →
  let overscanForward :=
    if js_lt current (Some target)
    then Z.max 1 (js_or_1 (overscanCount p)) else 1 in
  let measured :=
    Z.max 0 (Z.min (itemCount p - 1) (stopIndex + overscanForward)) in
  getItemOffset p measured ip3 = (itemOffset, ip4) →
  getEstimatedTotalSize p ip4 = (total, ip5) →
  let browserOffset :=
    normalizeScrollLeft (_mappedDirectionForNormalization p) target
      (Z.min (_widthPropAsNumber p) total) total in
  let queued := exec (scrollToItem p index align) i in
  trace queued =
    trace i ++
    [CallGetOffsetForIndexAndAlignment clamped align current;
     CallGetStartIndexForOffset (Some target);
     CallGetStopIndexForStartIndex startIndex (Some target);
     CallGetItemOffset measured;
     CallGetEstimatedTotalSize]
  ∧ _instanceProps queued = ip5
  ∧ updateQueue queued =
      updateQueue i ++
      [scrollToItemUpdate (Some target) browserOffset
         (if js_lt current (Some target) then forward else backward)]
  ∧ scrollOffset (state (exec (dispatch p (HostScrollToItem index align)) i))
    = browserOffset.
Proof.
  intros Hhorizontal clamped current Halign Hstart Hstop overscanForward
    measured Hmeasure Htotal browserOffset queued.
  assert (queued =
          set_updateQueue
            (updateQueue i ++
             [scrollToItemUpdate (Some target) browserOffset
                (if js_lt current (Some target) then forward else backward)])
            (set_trace
               (trace i ++
                [CallGetOffsetForIndexAndAlignment clamped align current;
                 CallGetStartIndexForOffset (Some target);
                 CallGetStopIndexForStartIndex startIndex (Some target);
                 CallGetItemOffset measured;
                 CallGetEstimatedTotalSize])
               (set_instanceProps ip5 i))) as Hqueued.
  { unfold queued, scrollToItem, exec, mbind, M_bind, read.
    rewrite Hhorizontal.
    erewrite invoke_run by exact Halign.
    erewrite invoke_run by exact Hstart.
    erewrite invoke_run by exact Hstop.
    assert ((match (if js_lt (normalizedScrollLeft (state i)) (Some target)
                    then forward else backward) with
             | forward => Z.max 1 (js_or_1 (overscanCount p))
             | backward => 1
             end) = overscanForward) as ->
      by (unfold overscanForward, current; by destruct (js_lt _ _)).
    erewrite invoke_run by exact Hmeasure.
    erewrite invoke_run by exact Htotal.
    cbn. by rewrite <- !(assoc_L (++)). }
  rewrite Hqueued. repeat split.
  cbn [dispatch]. rewrite exec_bind, flushUpdates_offset.
  fold queued. rewrite Hqueued.
  cbn [updateQueue set_updateQueue].
  rewrite applyUpdates_snoc. apply scrollToItemUpdate_offset.
Qed.

(** *** The debounce timer *)

Lemma keeps_bind {A B} P (m : M A) (k : A → M B) :
  keeps P m → (∀ a, keeps P (k a)) → keeps P (m ≫= k).
Proof. intros Hm Hk i Hi. rewrite exec_bind. by apply Hk, Hm. Qed.

Lemma keeps_ret {A} P (a : A) : keeps P (mret a).
Proof. by intros i. Qed.

Lemma keeps_timers {A} (m : M A) :
  preserves timerView m → keeps timerInvariant m.
Proof.
  intros Hm i Hi. specialize (Hm i). unfold timerView in Hm.
  injection Hm as Hid Hpending _. unfold timerInvariant.
  by rewrite Hid, Hpending.
Qed.

Lemma keeps_forEach {A} P (f : A → M unit) l :
  (∀ a, keeps P (f a)) → keeps P (forEach f l).
Proof.
  intros Hf. induction l as [|a l IH]; [by apply keeps_ret|].
  cbn [forEach]. apply keeps_bind; [apply Hf|by intros _].
Qed.

(** Arming: the timeout the component holds is cancelled, then a new one
    is requested and held. *)
Lemma resetIsScrollingDebounced_exec i :
  exec _resetIsScrollingDebounced i =
  let id' := nextTimeoutID i in
  set_resetIsScrollingTimeoutId (Some id')
    (set_trace
       (trace i ++
        match _resetIsScrollingTimeoutId i with
        | Some id => [CancelTimeout id]
        | None => []
        end ++ [RequestTimeout id' IS_SCROLLING_DEBOUNCE_INTERVAL])
       (set_nextTimeoutID (S id')
          (set_pendingTimeouts
             (match _resetIsScrollingTimeoutId i with
              | Some id => filter (λ t, t ≠ id) (pendingTimeouts i)
              | None => pendingTimeouts i
              end ++ [id']) i))).
Proof.
  unfold _resetIsScrollingDebounced, exec, mbind, M_bind, read. cbn zeta.
  destruct (_resetIsScrollingTimeoutId i) as [id|]; cbn; [|done].
  by rewrite <- (assoc_L (++)).
Qed.

Lemma resetIsScrollingDebounced_pending i :
  timerInvariant i →
  pendingTimeouts (exec _resetIsScrollingDebounced i) = [nextTimeoutID i].
Proof.
  intros Hi. rewrite resetIsScrollingDebounced_exec. cbn.
  destruct Hi as [Hnone|(t & Hone & Hid)].
  - rewrite Hnone. by destruct (_resetIsScrollingTimeoutId i).
  - rewrite Hid, Hone. cbn. by rewrite decide_False by auto.
Qed.

Lemma resetIsScrollingDebounced_keeps :
  keeps timerInvariant _resetIsScrollingDebounced.
Proof.
  intros i Hi. right. exists (nextTimeoutID i).
  split; [by apply resetIsScrollingDebounced_pending|].
  by rewrite resetIsScrollingDebounced_exec.
Qed.

Lemma runCallback_keeps cb : keeps timerInvariant (runCallback cb).
Proof.
  destruct cb; [apply resetIsScrollingDebounced_keeps|].
  apply keeps_timers. framed.
Qed.

Lemma commitUpdates_keeps p : keeps timerInvariant (commitUpdates p).
Proof.
  unfold commitUpdates.
  do 4 (apply keeps_bind; [apply keeps_timers; framed|intros]).
  apply keeps_bind; [apply keeps_timers; frame|intros].
  apply keeps_forEach, runCallback_keeps.
Qed.

Lemma flushNested_keeps n p : keeps timerInvariant (flushNested n p).
Proof.
  induction n as [|n IH]; cbn [flushNested];
    (apply keeps_bind; [apply commitUpdates_keeps|]); intros _;
    (apply keeps_bind; [apply keeps_timers; frame|]); intros [|u q];
    by try apply keeps_ret.
Qed.

Lemma fireTimeout_keeps id i :
  timerInvariant i → id ∈ pendingTimeouts i →
  timerInvariant (exec (fireTimeout id) i).
Proof.
  intros [Hnone|(t & Hone & Hid)] Hin.
  - rewrite Hnone in Hin. by apply elem_of_nil in Hin.
  - rewrite Hone in Hin. apply list_elem_of_singleton in Hin as ->.
    left. unfold fireTimeout, _resetIsScrolling, setState, exec, mbind,
      M_bind, modify. cbn. rewrite Hone. cbn.
    by rewrite decide_False by auto.
Qed.

Lemma flushUpdates_keeps p : keeps timerInvariant (flushUpdates p).
Proof. apply flushNested_keeps. Qed.

Lemma dispatch_keeps p e i :
  timerInvariant i → enabled e i → timerInvariant (exec (dispatch p e) i).
Proof.
  intros Hi He. destruct e as [event|offset|index align|id|[]];
    cbn [dispatch]; rewrite !exec_bind; apply flushUpdates_keeps.
  - apply (keeps_timers (onScrollHandler p event)); [frame|done].
  - apply (keeps_timers (scrollTo p offset)); [frame|done].
  - apply (keeps_timers (scrollToItem p index align)); [frame|done].
  - by apply fireTimeout_keeps.
  - apply (keeps_timers (componentDidUpdate p)); [frame|].
    apply (keeps_timers (render p)); [frame|done].
  - exact Hi.
Qed.

Lemma mount_keeps p el : timerInvariant (mount p el).
Proof.
  rewrite mount_exec. apply flushUpdates_keeps.
  assert (keeps timerInvariant
            (componentDidMount p)) as H1 by (apply keeps_timers; frame).
  assert (keeps timerInvariant (render p;; _outerRefSetter (Some el))) as H2
    by (apply keeps_timers; framed).
  apply H1, H2. left. by destruct (constructor_fresh p) as (_ & ? & _).
Qed.

Lemma reachable_timerInvariant i : reachable i → timerInvariant i.
Proof.
  induction 1 as [p el|p e i _ IH He];
    [apply mount_keeps|by apply dispatch_keeps].
Qed.

(** *** A programmatic scroll to the committed offset *)

(** The instance [scrollTo] works on once it has asked the strategy. *)
Lemma scrollTo_noop_exec p offset i :
  updateQueue i = [] →
  (scrollToTarget p offset (getEstimatedTotalSize p (_instanceProps i)).1).2
    = scrollOffset (state i) →
  exec (dispatch p (HostScrollTo offset)) i =
  exec _resetIsScrollingDebounced
    (if isHorizontal p
     then afterCall CallGetEstimatedTotalSize
            (getEstimatedTotalSize p (_instanceProps i)).2 i
     else i).
Proof.
  intros Hq Htarget. cbn [dispatch].
  rewrite exec_bind, scrollTo_exec. cbn zeta. rewrite Hq. cbn [app].
  set (j := if isHorizontal p then _ else i).
  assert (updateQueue j = [] ∧ state j = state i) as [Hjq Hjs]
    by (unfold j; by destruct (isHorizontal p)).
  erewrite flushUpdates_null; [|done| |done].
  - cbn [runCallback]. rewrite set_updateQueue_twice, <- Hjq.
    by rewrite set_updateQueue_same.
  - cbn. rewrite Hjs, bool_decide_eq_true_2; done.
Qed.

Lemma scrollToTarget_committed p i :
  (if isHorizontal p
   then 0 ≤ normalizeScrollLeft (_mappedDirectionForNormalization p)
              (scrollOffset (state i)) (_widthPropAsNumber p)
              (getEstimatedTotalSize p (_instanceProps i)).1
   else 0 ≤ scrollOffset (state i)) →
  (scrollToTarget p (scrollOffset (state i))
     (getEstimatedTotalSize p (_instanceProps i)).1).2
  = scrollOffset (state i).
Proof.
  unfold scrollToTarget. destruct (isHorizontal p); intros H; cbn; [|lia].
  apply Z.ltb_ge in H. by rewrite H.
Qed.

(** C5, amended: [scrollTo] called with the committed [scrollOffset], when
    that offset is not negative (vertical list) or does not normalize to a
    negative value (horizontal list), changes no field of the scroll state
    and invokes neither [onItemsRendered] nor [onScroll]. *)
Theorem scrollTo_same_offset_noop p i :
  updateQueue i = [] →
  let offset := scrollOffset (state i) in
  (if isHorizontal p
   then 0 ≤ normalizeScrollLeft (_mappedDirectionForNormalization p) offset
              (_widthPropAsNumber p)
              (getEstimatedTotalSize p (_instanceProps i)).1
   else 0 ≤ offset) →
  let i' := exec (dispatch p (HostScrollTo offset)) i in
  state i' = state i
  ∧ itemsRenderedCalls i' = itemsRenderedCalls i
  ∧ onScrollCalls i' = onScrollCalls i.
Proof.
  intros Hq offset Hoffset. cbn zeta.
  rewrite scrollTo_noop_exec by (done || by apply scrollToTarget_committed).
  assert (preserves state _resetIsScrollingDebounced) as -> by framed.
  assert (preserves itemsRenderedCalls _resetIsScrollingDebounced) as ->
    by (unfold itemsRenderedCalls; framed).
  assert (preserves onScrollCalls _resetIsScrollingDebounced) as ->
    by (unfold onScrollCalls; framed).
  destruct (isHorizontal p); [|done].
  repeat split; by apply callsOf_snoc.
Qed.

(** C6, amended: in every instance the host can bring about at most one
    debounce timeout is pending; arming cancels the timeout the component
    holds before it requests the new one, which is then the only one
    pending; and a [scrollTo] whose target is the committed offset leaves
    the scroll state as it is but arms the timer all the same. *)
Theorem debounce_single_timer_rearmed i :
  reachable i →
  (length (pendingTimeouts i) ≤ 1)%nat
  ∧ (let armed := exec _resetIsScrollingDebounced i in
     trace armed =
       trace i ++
       match _resetIsScrollingTimeoutId i with
       | Some id => [CancelTimeout id]
       | None => []
       end ++ [RequestTimeout (nextTimeoutID i) IS_SCROLLING_DEBOUNCE_INTERVAL]
     ∧ pendingTimeouts armed = [nextTimeoutID i]
     ∧ _resetIsScrollingTimeoutId armed = Some (nextTimeoutID i))
  ∧ (∀ p offset,
       (scrollToTarget p offset
          (getEstimatedTotalSize p (_instanceProps i)).1).2
         = scrollOffset (state i) →
       let i' := exec (dispatch p (HostScrollTo offset)) i in
       state i' = state i
       ∧ trace i' =
           trace i ++
           (if isHorizontal p then [CallGetEstimatedTotalSize] else []) ++
           match _resetIsScrollingTimeoutId i with
           | Some id => [CancelTimeout id]
           | None => []
           end ++
           [RequestTimeout (nextTimeoutID i) IS_SCROLLING_DEBOUNCE_INTERVAL]
       ∧ pendingTimeouts i' = [nextTimeoutID i]
       ∧ _resetIsScrollingTimeoutId i' = Some (nextTimeoutID i)).
Proof.
  intros Hreach.
  pose proof (reachable_timerInvariant i Hreach) as Hinv.
  pose proof (reachable_idle i Hreach) as Hq.
  split; [|split].
  - destruct Hinv as [->|(t & -> & _)]; cbn; lia.
  - cbn zeta. split; [by rewrite resetIsScrollingDebounced_exec|].
    split; [by apply resetIsScrollingDebounced_pending|].
    by rewrite resetIsScrollingDebounced_exec.
  - intros p offset Htarget. cbn zeta.
    rewrite scrollTo_noop_exec by done.
    set (j := if isHorizontal p then _ else i).
    assert (timerInvariant j ∧ state j = state i
            ∧ timerView j = timerView i
            ∧ trace j = trace i ++
                (if isHorizontal p then [CallGetEstimatedTotalSize] else []))
      as (Hj & Hs & Ht & Htr).
    { unfold j. destruct (isHorizontal p); [done|].
      by rewrite app_nil_r. }
    injection Ht as Hid Hpending Hnext.
    assert (preserves state _resetIsScrollingDebounced) as -> by framed.
    split; [done|].
    rewrite resetIsScrollingDebounced_pending by done.
    rewrite resetIsScrollingDebounced_exec. cbn.
    by rewrite Hid, Hnext, Htr, <- (assoc_L (++)).
Qed.

(** *** Further properties: the timer through the work loop *)

Lemma flushNested_keeps_any (P : Instance → Prop) n p :
  keeps P (commitUpdates p) → keeps P (flushNested n p).
Proof.
  intros Hcommit. induction n as [|n IH]; intros i Hi;
    rewrite flushNested_exec; cbn zeta;
    destruct (updateQueue (exec (commitUpdates p) i));
    try apply IH; by apply Hcommit.
Qed.

Lemma resetIsScrollingDebounced_view i :
  timerView (exec _resetIsScrollingDebounced i) = armView (timerView i).
Proof.
  rewrite resetIsScrollingDebounced_exec. unfold timerView, armView. cbn.
  by destruct (_resetIsScrollingTimeoutId i).
Qed.

Lemma forEach_runCallback_view cbs i :
  timerView (exec (forEach runCallback cbs) i)
  = callbacksView cbs (timerView i).
Proof.
  revert i. induction cbs as [|cb cbs IH]; intros i; [done|].
  cbn [forEach]. rewrite exec_bind, IH. unfold callbacksView. cbn [foldl].
  f_equal. destruct cb; cbn [runCallback].
  - apply resetIsScrollingDebounced_view.
  - assert (preserves timerView (_getItemStyleCache ArgsReset)) as ->
      by framed. done.
Qed.

Lemma commitUpdates_view p i :
  timerView (exec (commitUpdates p) i)
  = callbacksView (omap callback (updateQueue i)) (timerView i).
Proof.
  rewrite commitUpdates_exec. cbn zeta. rewrite forEach_runCallback_view.
  f_equal. case_bool_decide; [done|].
  assert (preserves timerView (render p;; componentDidUpdate p)) as ->
    by frame. done.
Qed.

Lemma normalizedOnly_callbacks q :
  Forall normalizedOnly q → omap callback q = [].
Proof.
  induction 1 as [|u q [_ Hu] _ IH]; [done|]. cbn. by rewrite Hu.
Qed.

Lemma flushNested_view_settled n p i :
  Forall normalizedOnly (updateQueue i) →
  timerView (exec (flushNested n p) i) = timerView i.
Proof.
  revert i. induction n as [|n IH]; intros i Hq;
    rewrite flushNested_exec; cbn zeta;
    destruct (updateQueue (exec (commitUpdates p) i)) as [|u q] eqn:E;
    try (rewrite IH by apply commitUpdates_normalizedOnly);
    by rewrite commitUpdates_view, normalizedOnly_callbacks.
Qed.

(** Only the completion callbacks of the updates queued by the entry point
    touch the timer: the updates that [componentDidUpdate] queues have
    none. *)
Lemma flushNested_view n p i :
  timerView (exec (flushNested n p) i)
  = callbacksView (omap callback (updateQueue i)) (timerView i).
Proof.
  rewrite flushNested_exec. cbn zeta.
  destruct (updateQueue (exec (commitUpdates p) i)) as [|u q] eqn:E;
    [apply commitUpdates_view|].
  destruct n as [|n]; [apply commitUpdates_view|].
  rewrite flushNested_view_settled by apply commitUpdates_normalizedOnly.
  apply commitUpdates_view.
Qed.

Lemma scrollToItem_queue_callbacks p index align i :
  updateQueue i = [] →
  omap callback (updateQueue (exec (scrollToItem p index align) i))
  = [ResetIsScrollingDebounced].
Proof.
  intros Hq.
  destruct (scrollToItem_exec p index align i)
    as (j & nsl & browserOffset & dir & -> & _).
  by rewrite Hq.
Qed.

(** The timer view after a host event. *)
Lemma dispatch_view p e i :
  updateQueue i = [] →
  timerView (exec (dispatch p e) i) =
  match e with
  | HostScroll _ | HostScrollTo _ | HostScrollToItem _ _ =>
      armView (timerView i)
  | HostTimeout id =>
      (None, filter (λ t, t ≠ id) (pendingTimeouts i), nextTimeoutID i)
  | HostRender _ => timerView i
  end.
Proof.
  intros Hq. destruct e as [event|offset|index align|id|[]];
    cbn [dispatch]; rewrite !exec_bind; unfold flushUpdates;
    rewrite flushNested_view.
  - rewrite onScrollHandler_exec, Hq. cbn [app]. done.
  - rewrite scrollTo_queue, Hq, scrollTo_timers. done.
  - rewrite scrollToItem_queue_callbacks, scrollToItem_timers by done. done.
  - rewrite fireTimeout_queue, Hq. done.
  - rewrite componentDidUpdate_queue, componentDidUpdate_timers.
    rewrite render_queue, render_timers, Hq.
    by rewrite normalizedOnly_callbacks
      by apply queuedByDidUpdate_normalizedOnly.
  - change (exec (mret tt) i) with i. by rewrite Hq.
Qed.

Lemma armView_invariant i :
  timerInvariant i →
  armView (timerView i)
  = (Some (nextTimeoutID i), [nextTimeoutID i], S (nextTimeoutID i)).
Proof.
  unfold timerView, armView. intros [Hnone|(t & Hone & Hid)].
  - rewrite Hnone. by destruct (_resetIsScrollingTimeoutId i).
  - rewrite Hid, Hone. cbn. by rewrite decide_False by auto.
Qed.

(** X1: from an instance the host can bring about, an observed scroll
    event, [scrollTo] and [scrollToItem] each leave exactly one timeout
    pending, a new one, which the component holds; the expiry of the
    timeout leaves none pending and none held; a re-render leaves the
    timer alone. *)
Theorem pending_timeout_after_event p e i :
  reachable i → enabled e i →
  let i' := exec (dispatch p e) i in
  match e with
  | HostScroll _ | HostScrollTo _ | HostScrollToItem _ _ =>
      pendingTimeouts i' = [nextTimeoutID i]
      ∧ _resetIsScrollingTimeoutId i' = Some (nextTimeoutID i)
  | HostTimeout _ =>
      pendingTimeouts i' = [] ∧ _resetIsScrollingTimeoutId i' = None
  | HostRender _ =>
      pendingTimeouts i' = pendingTimeouts i
      ∧ _resetIsScrollingTimeoutId i' = _resetIsScrollingTimeoutId i
  end.
Proof.
  intros Hreach He. cbn zeta.
  pose proof (reachable_timerInvariant i Hreach) as Hinv.
  pose proof (dispatch_view p e i (reachable_idle i Hreach)) as Hview.
  destruct e as [event|offset|index align|id|changed];
    try (rewrite armView_invariant in Hview by done);
    injection Hview as Hheld Hpending _; try done.
  split; [|done]. etrans; [exact Hpending|]. cbn [enabled] in He.
  destruct Hinv as [Hnone|(t & Hone & _)].
  - rewrite Hnone in He. by apply elem_of_nil in He.
  - rewrite Hone in He |- *. apply list_elem_of_singleton in He as ->.
    cbn. by rewrite decide_False by auto.
Qed.

(** X2: [componentWillUnmount] on an instance the host can bring about
    leaves no timeout pending: the one the component holds is cancelled. *)
Theorem unmount_cancels_timeout i :
  reachable i →
  let i' := exec componentWillUnmount i in
  pendingTimeouts i' = []
  ∧ trace i' =
      trace i ++
      match _resetIsScrollingTimeoutId i with
      | Some id => [CancelTimeout id]
      | None => []
      end
  ∧ state i' = state i.
Proof.
  intros Hreach. cbn zeta.
  pose proof (reachable_timerInvariant i Hreach) as Hinv.
  unfold componentWillUnmount, exec, mbind, M_bind, read, cancelTimeout.
  destruct Hinv as [Hnone|(t & Hone & Hid)].
  - destruct (_resetIsScrollingTimeoutId i); cbn; rewrite ?Hnone;
      by rewrite ?app_nil_r.
  - rewrite Hid. cbn. rewrite Hone. cbn. by rewrite decide_False by auto.
Qed.


(** *** Further properties: mounting *)

Lemma componentDidMount_outerRef p i :
  _outerRef (exec (componentDidMount p) i) =
  match initialScrollOffset p, _outerRef i with
  | Some offset, Some el => Some (withElementOffset p offset el)
  | _, ref => ref
  end.
Proof.
  unfold componentDidMount.
  rewrite exec_bind, eval_read, exec_read, exec_bind.
  rewrite callPropsCallbacks_outerRef. unfold withElementOffset.
  destruct (initialScrollOffset p), (_outerRef i) as [el|] eqn:E;
    rewrite ?exec_ret, ?E; try done.
  by destruct (isHorizontal p).
Qed.

Lemma constructor_offset p :
  scrollOffset (state (constructor p)) =
  match initialScrollOffset p with
  | Some offset => offset
  | None =>
      if isHorizontal p then
        let estimatedWidth :=
          (getEstimatedTotalSize p (initInstanceProps p)).1 in
        normalizeScrollLeft (_mappedDirectionForNormalization p) 0
          (Z.min (_widthPropAsNumber p) estimatedWidth) estimatedWidth
      else 0
  end.
Proof.
  unfold constructor. destruct (isHorizontal p).
  - destruct (getEstimatedTotalSize p (initInstanceProps p)). cbn.
    by destruct (initialScrollOffset p).
  - by destruct (initialScrollOffset p).
Qed.

Lemma mount_state p el : state (mount p el) = state (constructor p).
Proof.
  rewrite mount_exec.
  destruct (before_componentDidMount p el) as (Hstate & Hq & _).
  rewrite flushUpdates_nothing by by rewrite componentDidMount_queue.
  by rewrite componentDidMount_state.
Qed.

(** X3: a mounted list is idle: not scrolling, direction forward, no update
    requested, nothing queued, no timeout pending.  Its [scrollOffset] is
    [initialScrollOffset] when that prop is a number, and then the outer
    element was given that scroll position ([scrollLeft] for a horizontal
    list, [scrollTop] otherwise); without the prop a vertical list starts
    at offset 0 and the element is left as it is. *)
Theorem mount_initial_state p el :
  let i := mount p el in
  isScrolling (state i) = false
  ∧ scrollDirection (state i) = forward
  ∧ scrollUpdateWasRequested (state i) = false
  ∧ updateQueue i = []
  ∧ pendingTimeouts i = []
  ∧ _resetIsScrollingTimeoutId i = None
  ∧ match initialScrollOffset p with
    | Some offset =>
        scrollOffset (state i) = offset
        ∧ _outerRef i = Some (withElementOffset p offset el)
    | None =>
        _outerRef i = Some el
        ∧ (isHorizontal p = false → scrollOffset (state i) = 0)
    end.
Proof.
  cbn zeta. rewrite mount_state.
  destruct (constructor_fresh p) as (_ & Hpending & _ & H1 & H2 & H3).
  split; [done|]. split; [done|]. split; [done|].
  split; [by apply reachable_idle, reachable_mount|].
  destruct (before_componentDidMount p el) as (_ & Hq & _).
  rewrite mount_exec.
  rewrite flushUpdates_nothing by by rewrite componentDidMount_queue.
  assert (timerView
            (exec (componentDidMount p)
               (exec (render p;; _outerRefSetter (Some el)) (constructor p)))
          = timerView (constructor p)) as Hview.
  { rewrite componentDidMount_timers.
    assert (preserves timerView (render p;; _outerRefSetter (Some el))) as ->
      by framed. done. }
  injection Hview as -> -> _.
  split; [done|]. split; [by unfold constructor; destruct (isHorizontal p);
    [destruct (getEstimatedTotalSize p (initInstanceProps p))|]|].
  rewrite componentDidMount_outerRef.
  assert (_outerRef (exec (render p;; _outerRefSetter (Some el))
                       (constructor p)) = Some el) as ->.
  { rewrite exec_bind. done. }
  rewrite constructor_offset.
  destruct (initialScrollOffset p); [done|].
  split; [done|]. by intros ->.
Qed.

(** *** Further properties: the host's view of the scroll state *)

Lemma callOnScroll_informs i :
  hostInformed
    (exec (_callOnScroll (scrollDirection (state i)) (scrollOffset (state i))
             (scrollUpdateWasRequested (state i))) i).
Proof.
  unfold hostInformed, scrollTuple, _callOnScroll, exec, mbind, M_bind, read,
    emit, modify. cbn zeta.
  by case_bool_decide.
Qed.

Lemma callPropsCallbacks_informs p i :
  onScroll p = true → hostInformed (exec (_callPropsCallbacks p) i).
Proof.
  intros Hscroll. unfold _callPropsCallbacks. rewrite Hscroll, exec_bind.
  rewrite exec_bind, eval_read, exec_read.
  apply callOnScroll_informs.
Qed.

Lemma componentDidUpdate_informs p i :
  onScroll p = true → hostInformed (exec (componentDidUpdate p) i).
Proof.
  intros Hscroll. unfold componentDidUpdate.
  rewrite exec_bind, eval_read, exec_read, exec_bind, eval_read, exec_read.
  rewrite exec_bind. by apply callPropsCallbacks_informs.
Qed.

Lemma hostInformed_callbacks cbs i :
  hostInformed i → hostInformed (exec (forEach runCallback cbs) i).
Proof.
  unfold hostInformed. intros H.
  assert (preserves state (forEach runCallback cbs)) as -> by frame.
  assert (preserves _callOnScroll_lastArgs (forEach runCallback cbs)) as ->;
    [|done].
  apply preserves_forEach. intros cb. destruct cb; framed.
Qed.

Lemma commitUpdates_informs p :
  onScroll p = true → keeps hostInformed (commitUpdates p).
Proof.
  intros Hscroll i Hi. rewrite commitUpdates_exec. cbn zeta.
  apply hostInformed_callbacks.
  case_bool_decide as Hsame.
  - rewrite Hsame. rewrite exec_ret. exact Hi.
  - rewrite exec_bind. by apply componentDidUpdate_informs.
Qed.



(** *** Further properties: the flag and the timer *)

(** X5: in every instance the host can bring about, while [isScrolling] is
    true a timeout that will reset it is pending, and it is the one the
    component holds. *)
Theorem scrolling_has_pending_timeout i :
  reachable i → isScrolling (state i) = true →
  ∃ id, pendingTimeouts i = [id] ∧ _resetIsScrollingTimeoutId i = Some id.
Proof.
  induction 1 as [p el|p e i Hreach IH He]; intros Hmotion.
  - rewrite mount_state in Hmotion.
    destruct (constructor_fresh p) as (_ & _ & _ & Hidle & _). congruence.
  - pose proof (reachable_idle i Hreach) as Hq.
    pose proof (reachable_timerInvariant i Hreach) as Hinv.
    pose proof (dispatch_view p e i Hq) as Hview.
    rewrite dispatch_isScrolling in Hmotion by done.
    destruct e as [event|offset|index align|id|changed];
      try (rewrite armView_invariant in Hview by done);
      injection Hview as Hheld Hpending _; try done; try by eauto.
    destruct (IH Hmotion) as (t & Hone & Hid). exists t.
    split; (etrans; [eassumption|done]).
Qed.

(** *** Further properties: the item style cache *)

Lemma keeps_styleView {A} (m : M A) :
  preserves styleView m → keeps cacheCoherent m.
Proof.
  intros Hm i Hi. specialize (Hm i). unfold styleView in Hm.
  injection Hm as Hargs Hcache. unfold cacheCoherent.
  by rewrite Hargs, Hcache.
Qed.

Lemma getItemStyleCache_exec args i :
  exec (_getItemStyleCache args) i =
  if bool_decide (_getItemStyleCache_lastArgs i = Some args) then i
  else set_getItemStyleCache_lastArgs (Some args) (set_itemStyleCache ∅ i).
Proof.
  unfold _getItemStyleCache, exec, mbind, M_bind, read, modify. cbn zeta.
  by case_bool_decide.
Qed.

Lemma getItemStyleCache_keeps args :
  keeps cacheCoherent (_getItemStyleCache args).
Proof.
  intros i Hi. rewrite getItemStyleCache_exec.
  case_bool_decide; [done|]. by left.
Qed.

(** After the reset call the cache of a coherent instance is empty. *)
Lemma getItemStyleCache_reset i :
  cacheCoherent i →
  itemStyleCache (exec (_getItemStyleCache ArgsReset) i) = ∅.
Proof.
  intros Hi. rewrite getItemStyleCache_exec.
  case_bool_decide as Hargs; [|done].
  destruct Hi as [Hempty|(a & b & c & Hprops)]; [done|congruence].
Qed.

Lemma getItemStyle_lastArgs p index i :
  _getItemStyleCache_lastArgs (exec (_getItemStyle p index) i)
  = Some (styleArgs p).
Proof.
  unfold _getItemStyle. rewrite exec_bind. fold (styleArgs p).
  set (j := exec (_getItemStyleCache (styleArgs p)) i).
  assert (_getItemStyleCache_lastArgs j = Some (styleArgs p)) as Hj.
  { unfold j. rewrite getItemStyleCache_exec. by case_bool_decide. }
  rewrite exec_bind, eval_read, exec_read.
  destruct (itemStyleCache j !! index); [done|].
  rewrite !exec_bind, !exec_invoke. done.
Qed.

Lemma getItemStyle_keeps p index : keeps cacheCoherent (_getItemStyle p index).
Proof.
  intros i _. right. rewrite getItemStyle_lastArgs. unfold styleArgs. eauto.
Qed.

Lemma keeps_mapM {A B} P (f : A → M B) l :
  (∀ a, keeps P (f a)) → keeps P (mapM f l).
Proof.
  intros Hf. induction l as [|a l IH]; [by apply keeps_ret|]. cbn [mapM].
  apply keeps_bind; [apply Hf|]. intros b.
  apply keeps_bind; [apply IH|]. intros bs. apply keeps_ret.
Qed.

Lemma render_keeps_cache p : keeps cacheCoherent (render p).
Proof.
  unfold render.
  apply keeps_bind; [apply keeps_styleView; framed|intros s].
  apply keeps_bind; [apply keeps_styleView; framed|intros [[[a b] c] d]].
  apply keeps_bind.
  - destruct (0 <? itemCount p); [|apply keeps_ret].
    apply keeps_mapM. intros index.
    apply keeps_bind; [apply getItemStyle_keeps|intros; apply keeps_ret].
  - intros items. apply keeps_styleView. framed.
Qed.

Lemma runCallback_keeps_cache cb : keeps cacheCoherent (runCallback cb).
Proof.
  destruct cb; [apply keeps_styleView; framed|].
  apply getItemStyleCache_keeps.
Qed.

Lemma componentDidUpdate_styleView p :
  preserves styleView (componentDidUpdate p).
Proof. framed. Qed.

Lemma commitUpdates_keeps_cache p : keeps cacheCoherent (commitUpdates p).
Proof.
  unfold commitUpdates.
  do 4 (apply keeps_bind; [apply keeps_styleView; framed|intros]).
  apply keeps_bind.
  - case_bool_decide; [apply keeps_ret|].
    apply keeps_bind; [apply render_keeps_cache|intros].
    apply keeps_styleView, componentDidUpdate_styleView.
  - intros. apply keeps_forEach, runCallback_keeps_cache.
Qed.

Lemma flushUpdates_keeps_cache p : keeps cacheCoherent (flushUpdates p).
Proof. apply flushNested_keeps_any, commitUpdates_keeps_cache. Qed.

Lemma dispatch_keeps_cache p e :
  keeps cacheCoherent (dispatch p e).
Proof.
  destruct e as [event|offset|index align|id|[]]; cbn [dispatch].
  - apply keeps_bind; [apply keeps_styleView; framed|].
    intros. apply flushUpdates_keeps_cache.
  - apply keeps_bind; [apply keeps_styleView; framed|].
    intros. apply flushUpdates_keeps_cache.
  - apply keeps_bind; [apply keeps_styleView; framed|].
    intros. apply flushUpdates_keeps_cache.
  - apply keeps_bind; [apply keeps_styleView; framed|].
    intros. apply flushUpdates_keeps_cache.
  - apply keeps_bind; [|intros; apply flushUpdates_keeps_cache].
    apply keeps_bind; [apply render_keeps_cache|intros].
    apply keeps_styleView, componentDidUpdate_styleView.
  - apply keeps_bind; [apply keeps_ret|].
    intros. apply flushUpdates_keeps_cache.
Qed.

Lemma mount_keeps_cache p el : cacheCoherent (mount p el).
Proof.
  unfold mount.
  assert (cacheCoherent (constructor p)) as Hfresh.
  { left. unfold constructor. destruct (isHorizontal p); [|done].
    by destruct (getEstimatedTotalSize p (initInstanceProps p)). }
  revert Hfresh. generalize (constructor p).
  change (keeps cacheCoherent
            (render p;; _outerRefSetter (Some el);; componentDidMount p;;
             flushUpdates p)).
  apply keeps_bind; [apply render_keeps_cache|intros].
  apply keeps_bind; [apply keeps_styleView; framed|intros].
  apply keeps_bind; [apply keeps_styleView; framed|intros].
  apply flushUpdates_keeps_cache.
Qed.

Lemma reachable_cacheCoherent i : reachable i → cacheCoherent i.
Proof.
  induction 1 as [p el|p e i _ IH _];
    [apply mount_keeps_cache|by apply dispatch_keeps_cache].
Qed.

(** One pass over a queue of one update. *)
Lemma commitUpdates_single p i u :
  updateQueue i = [u] →
  let next := default (state i) (updater u (state i)) in
  exec (commitUpdates p) i =
  exec (forEach runCallback
          (match callback u with Some cb => [cb] | None => [] end))
    (exec (if bool_decide (next = state i) then mret tt
           else render p;; componentDidUpdate p)
       (set_state next (set_updateQueue [] i))).
Proof. intros Hq. rewrite commitUpdates_exec. cbn zeta. by rewrite Hq. Qed.

Lemma fireTimeout_exec id i :
  updateQueue i = [] →
  let j := exec (fireTimeout id) i in
  updateQueue j = [clearMotionUpdate]
  ∧ state j = state i
  ∧ _outerRef j = _outerRef i
  ∧ styleView j = styleView i.
Proof. intros Hq. cbn zeta. by rewrite fireTimeout_queue, Hq. Qed.

(** X6: when the debounce timeout expires on an instance the host can
    bring about, with no programmatic update outstanding or on a vertical
    list, the committed state is the previous one with [isScrolling]
    false, the item style cache is empty after the commit, and no timeout
    is pending or held. *)
Theorem debounce_expiry p id i :
  reachable i → id ∈ pendingTimeouts i →
  scrollUpdateWasRequested (state i) = false ∨ isHorizontal p = false →
  let i' := exec (dispatch p (HostTimeout id)) i in
  state i' =
    {| isScrolling := false;
       scrollDirection := scrollDirection (state i);
       scrollOffset := scrollOffset (state i);
       normalizedScrollLeft := normalizedScrollLeft (state i);
       scrollUpdateWasRequested := scrollUpdateWasRequested (state i) |}
  ∧ itemStyleCache i' = ∅
  ∧ pendingTimeouts i' = []
  ∧ _resetIsScrollingTimeoutId i' = None.
Proof.
  intros Hreach Hin Hsettled. cbn zeta.
  pose proof (reachable_idle i Hreach) as Hq.
  pose proof (reachable_timerInvariant i Hreach) as Hinv.
  pose proof (reachable_cacheCoherent i Hreach) as Hcache.
  pose proof (dispatch_view p (HostTimeout id) i Hq) as Hview.
  injection Hview as Hheld Hpending _.
  assert (filter (λ t, t ≠ id) (pendingTimeouts i) = []) as Hnone.
  { destruct Hinv as [Hnone|(t & Hone & _)].
    - rewrite Hnone in Hin. by apply elem_of_nil in Hin.
    - rewrite Hone in Hin |- *. apply list_elem_of_singleton in Hin as ->.
      cbn. by rewrite decide_False by auto. }
  split; [|split; [|split; [by etrans; [exact Hpending|]|exact Hheld]]];
    cbn [dispatch]; rewrite exec_bind; unfold flushUpdates;
    destruct (fireTimeout_exec id i Hq) as (Hj & Hs & Href & Hv);
    set (j := exec (fireTimeout id) i) in *;
    (rewrite flushNested_done;
     [|rewrite commitUpdates_queue; cbn zeta; case_bool_decide; [done|];
       rewrite Hj, Hs; unfold queuedByDidUpdate; cbn;
       destruct Hsettled as [-> | ->]; [done|];
       by destruct (scrollUpdateWasRequested (state i)), (_outerRef j)]).
  - by rewrite commitUpdates_state, Hj, Hs.
  - rewrite (commitUpdates_single p j clearMotionUpdate Hj). cbn zeta.
    cbn [callback clearMotionUpdate forEach].
    rewrite exec_bind, exec_ret. cbn [runCallback].
    apply getItemStyleCache_reset.
    assert (cacheCoherent j) as Hcj by exact Hcache.
    case_bool_decide as Hsame.
    + rewrite exec_ret. done.
    + apply (keeps_bind cacheCoherent (render p)
               (λ _, componentDidUpdate p));
        [apply render_keeps_cache
        |intros; apply keeps_styleView, componentDidUpdate_styleView|].
      done.
Qed.

Lemma getItemStyleCache_lastArgs args i :
  _getItemStyleCache_lastArgs (exec (_getItemStyleCache args) i) = Some args.
Proof. rewrite getItemStyleCache_exec. by case_bool_decide. Qed.

(** The style [_getItemStyle] builds from the strategy's two answers. *)
Lemma getItemStyle_run p index i :
  let j := exec (_getItemStyleCache (styleArgs p)) i in
  _getItemStyle p index i =
  match itemStyleCache j !! index with
  | Some style => (style, j)
  | None =>
      let offset := (getItemOffset p index (_instanceProps j)).1 in
      let ip1 := (getItemOffset p index (_instanceProps j)).2 in
      let size := (getItemSize p index ip1).1 in
      let ip2 := (getItemSize p index ip1).2 in
      let style :=
        {| style_side :=
             if bool_decide (direction p = rtl) then side_right
             else side_left;
           style_side_value := if isHorizontal p then offset else 0;
           style_top := if negb (isHorizontal p) then offset else 0;
           style_height := if negb (isHorizontal p) then Some size else None;
           style_width := if isHorizontal p then Some size else None |} in
      (style,
       set_itemStyleCache (<[index := style]> (itemStyleCache j))
         (set_trace
            (trace j ++ [CallGetItemOffset index; CallGetItemSize index])
            (set_instanceProps ip2 j)))
  end.
Proof.
  cbn zeta. unfold _getItemStyle. fold (styleArgs p).
  unfold mbind, M_bind at 1. unfold exec.
  destruct (_getItemStyleCache (styleArgs p) i) as [[] j]. cbn [snd].
  unfold mbind, M_bind, read. cbn zeta.
  destruct (itemStyleCache j !! index); [done|].
  unfold invoke, modify, mret, M_ret.
  destruct (getItemOffset p index (_instanceProps j)) as [offset ip1]. cbn.
  destruct (getItemSize p index ip1) as [size ip2]. cbn.
  by rewrite <- (assoc_L (++)).
Qed.


(** X8: when the arguments that key the cache differ from those of the
    previous call, [_getItemStyle] starts from an empty cache: it asks the
    strategy for the offset and the size of the index, and the cache then
    holds the new style of that index and nothing else. *)
Theorem item_style_recomputed p index i :
  _getItemStyleCache_lastArgs i ≠ Some (styleArgs p) →
  let i' := exec (_getItemStyle p index) i in
  itemStyleCache i' = {[ index := eval (_getItemStyle p index) i ]}
  ∧ trace i' = trace i ++ [CallGetItemOffset index; CallGetItemSize index]
  ∧ _getItemStyleCache_lastArgs i' = Some (styleArgs p).
Proof.
  intros Hargs. cbn zeta. unfold eval, exec.
  rewrite (getItemStyle_run p index i). cbn zeta.
  rewrite getItemStyleCache_exec, bool_decide_eq_false_2 by done.
  cbn. by rewrite lookup_empty.
Qed.

(** *** Further properties: what [render] creates *)

Lemma mapM_indices {B} (f : Z → M B) (index_of : B → Z) l i :
  (∀ x j, index_of (f x j).1 = x) →
  index_of <$> (mapM f l i).1 = l.
Proof.
  intros Hf. revert i. induction l as [|x l IH]; intros i; [done|].
  cbn [mapM]. unfold mbind, M_bind at 1.
  pose proof (Hf x i) as Hx. destruct (f x i) as [b j]. cbn in Hx.
  unfold mbind, M_bind at 1.
  pose proof (IH j) as Hl. destruct (mapM f l j) as [bs k]. cbn in Hl.
  cbn. by rewrite Hx, Hl.
Qed.

Lemma mapM_Forall {B} (f : Z → M B) (P : B → Prop) l i :
  (∀ x j, P (f x j).1) → Forall P (mapM f l i).1.
Proof.
  intros Hf. revert i. induction l as [|x l IH]; intros i; [constructor|].
  cbn [mapM]. unfold mbind, M_bind at 1.
  pose proof (Hf x i) as Hx. destruct (f x i) as [b j]. cbn in Hx.
  unfold mbind, M_bind at 1.
  pose proof (IH j) as Hl. destruct (mapM f l j) as [bs k]. cbn in Hl.
  cbn. by constructor.
Qed.

(** X9: for a list that has items, [render] creates one child for each
    index from [overscanStart] to [overscanStop] of the range
    [_getRangeToRender] returns, in increasing order, keyed by its index;
    each child is told [isScrolling] exactly when [useIsScrolling] is set. *)
Theorem render_items_cover_range p i :
  0 < itemCount p →
  let range := eval (_getRangeToRender p) i in
  let overscanStart := range.1.1.1 in
  let overscanStop := range.1.1.2 in
  let items := (eval (render p) i).1 in
  item_index <$> items = seqZ overscanStart (overscanStop - overscanStart + 1)
  ∧ item_key <$> items = item_index <$> items
  ∧ Forall (λ item,
              item_isScrolling item =
              if useIsScrolling p then Some (isScrolling (state i)) else None)
      items.
Proof.
  intros Hitems. cbn zeta. unfold eval, render, mbind, M_bind, read.
  apply Z.ltb_lt in Hitems. rewrite Hitems.
  destruct (_getRangeToRender p i) as [[[[a b] c] d] i1]. cbn [fst snd].
  match goal with
  | |- context [mapM ?f0 _ _] => set (f := f0)
  end.
  pose proof (mapM_indices f item_index (seqZ a (b - a + 1)) i1) as Hindex.
  pose proof (mapM_indices f item_key (seqZ a (b - a + 1)) i1) as Hkey.
  pose proof (mapM_Forall f
                (λ item, item_isScrolling item =
                         if useIsScrolling p
                         then Some (isScrolling (state i)) else None)
                (seqZ a (b - a + 1)) i1) as Hmotion.
  destruct (@mapM M _ _ _ _ f (seqZ a (b - a + 1)) i1) as [items i2].
  unfold invoke, mret, M_ret.
  destruct (getEstimatedTotalSize p (_instanceProps i2)). cbn in *.
  assert (∀ x j, item_index (f x j).1 = x ∧ item_key (f x j).1 = x
                 ∧ item_isScrolling (f x j).1 =
                   if useIsScrolling p
                   then Some (isScrolling (state i)) else None) as Hf.
  { intros x j. unfold f, mbind, M_bind, mret, M_ret.
    by destruct (_getItemStyle p x j). }
  rewrite Hindex, Hkey by apply Hf. split; [done|]. split; [done|].
  apply Hmotion. apply Hf.
Qed.


(** *** Further properties: programmatic scrolls and the outer element *)

Lemma componentDidUpdate_outerRef p i :
  _outerRef (exec (componentDidUpdate p) i) =
  match scrollUpdateWasRequested (state i), _outerRef i with
  | true, Some el => Some (withElementOffset p (scrollOffset (state i)) el)
  | _, ref => ref
  end.
Proof.
  unfold componentDidUpdate.
  rewrite !exec_bind, callPropsCallbacks_outerRef.
  rewrite !eval_read, !exec_read. unfold withElementOffset.
  destruct (scrollUpdateWasRequested (state i)), (_outerRef i) as [el|] eqn:E;
    rewrite ?exec_ret, ?E; try done.
  by destruct (isHorizontal p).
Qed.

Lemma componentDidUpdate_unrequested p i :
  scrollUpdateWasRequested (state i) = false →
  exec (componentDidUpdate p) i = exec (_callPropsCallbacks p) i.
Proof.
  intros Hreq. unfold componentDidUpdate.
  by rewrite exec_bind, eval_read, exec_read, exec_bind, eval_read,
    exec_read, Hreq, exec_bind, exec_ret.
Qed.

Lemma commitUpdates_outerRef p i :
  let next := applyUpdates (updateQueue i) (state i) in
  _outerRef (exec (commitUpdates p) i) =
  if bool_decide (next = state i) then _outerRef i
  else
    match scrollUpdateWasRequested next, _outerRef i with
    | true, Some el => Some (withElementOffset p (scrollOffset next) el)
    | _, ref => ref
    end.
Proof.
  rewrite commitUpdates_exec. cbn zeta.
  assert (preserves _outerRef
            (forEach runCallback (omap callback (updateQueue i)))) as ->
    by frame.
  case_bool_decide; [done|].
  by rewrite exec_bind, componentDidUpdate_outerRef, !render_state,
    !render_outerRef.
Qed.

Lemma withElementOffset_offset p v el :
  elementOffset p (withElementOffset p v el) = v.
Proof. unfold elementOffset, withElementOffset. by destruct (isHorizontal p). Qed.

(** While only [normalizedScrollLeft] updates are queued, a pass keeps the
    outer element on the committed offset. *)
Lemma commitUpdates_domFollows p :
  keeps (λ i, domFollows p i ∧ Forall normalizedOnly (updateQueue i))
    (commitUpdates p).
Proof.
  intros i [(el & Href & Hel) Hq].
  split; [|apply commitUpdates_normalizedOnly].
  destruct (applyUpdates_normalizedOnly _ (state i) Hq)
    as (_ & _ & Hoffset & _).
  unfold domFollows.
  rewrite commitUpdates_outerRef, commitUpdates_state. cbn zeta.
  rewrite Href, Hoffset.
  case_bool_decide; [by eauto|].
  destruct (scrollUpdateWasRequested _); [|by eauto].
  eexists. split; [done|]. apply withElementOffset_offset.
Qed.

(** The first pass after an update that requests a scroll update and
    changes the state writes the committed offset to the element. *)
Lemma flushUpdates_writes p i u el :
  updateQueue i = [u] → _outerRef i = Some el →
  let next := default (state i) (updater u (state i)) in
  next ≠ state i → scrollUpdateWasRequested next = true →
  domFollows p (exec (flushUpdates p) i).
Proof.
  intros Hq Href next Hchanged Hreq.
  assert (applyUpdates (updateQueue i) (state i) = next) as Happly
    by by rewrite Hq.
  assert (domFollows p (exec (commitUpdates p) i)
          ∧ Forall normalizedOnly (updateQueue (exec (commitUpdates p) i)))
    as Hfirst.
  { split; [|apply commitUpdates_normalizedOnly]. unfold domFollows.
    rewrite commitUpdates_outerRef, commitUpdates_state. cbn zeta.
    rewrite Happly, bool_decide_eq_false_2, Hreq, Href by done.
    eexists. split; [done|]. apply withElementOffset_offset. }
  unfold flushUpdates. rewrite flushNested_exec. cbn zeta.
  destruct (updateQueue (exec (commitUpdates p) i)) eqn:E;
    [apply Hfirst|].
  rewrite <- E in Hfirst.
  by apply (flushNested_keeps_any _ _ p (commitUpdates_domFollows p)).
Qed.

Lemma flushUpdates_fields p i u s' :
  updateQueue i = [u] → updater u (state i) = Some s' →
  sameScroll s' (state (exec (flushUpdates p) i)).
Proof.
  intros Hq Hupd.
  pose proof (flushNested_sameScroll NESTED_UPDATE_LIMIT p i) as H.
  rewrite Hq in H.
  change (applyUpdates [u] (state i))
    with (default (state i) (updater u (state i))) in H.
  by rewrite Hupd in H.
Qed.

(** X10: a [scrollTo] that changes the committed offset commits the offset
    it settled on, sets [scrollUpdateWasRequested], takes the direction
    from the driving offset ([forward] exactly when it increased), leaves
    [isScrolling] as it was, and, when the outer element is attached, the
    element shows the committed offset once the work loop is done. *)
Theorem scrollTo_transition p offset i :
  updateQueue i = [] →
  let target :=
    scrollToTarget p offset (getEstimatedTotalSize p (_instanceProps i)).1 in
  target.2 ≠ scrollOffset (state i) →
  let i' := exec (dispatch p (HostScrollTo offset)) i in
  scrollOffset (state i') = target.2
  ∧ scrollUpdateWasRequested (state i') = true
  ∧ scrollDirection (state i') =
      (if (if isHorizontal p
           then js_lt (normalizedScrollLeft (state i)) target.1
           else scrollOffset (state i) <? target.2)
       then forward else backward)
  ∧ isScrolling (state i') = isScrolling (state i)
  ∧ (∀ el, _outerRef i = Some el → domFollows p i').
Proof.
  intros Hq target Hchanged. cbn zeta. cbn [dispatch]. rewrite exec_bind.
  pose proof (scrollTo_queue p offset i) as Hj.
  pose proof (scrollTo_state p offset i) as Hs.
  assert (_outerRef (exec (scrollTo p offset) i) = _outerRef i) as Href.
  { assert (preserves _outerRef (scrollTo p offset)) as -> by framed. done. }
  set (j := exec (scrollTo p offset) i) in *.
  rewrite Hq in Hj. cbn [app] in Hj. fold target in Hj.
  assert (updater (scrollToUpdate p target) (state j) =
          Some {| isScrolling := isScrolling (state i);
                  scrollDirection :=
                    if (if isHorizontal p
                        then js_lt (normalizedScrollLeft (state i)) target.1
                        else scrollOffset (state i) <? target.2)
                    then forward else backward;
                  scrollOffset := target.2;
                  normalizedScrollLeft := target.1;
                  scrollUpdateWasRequested := true |}) as Hupd.
  { rewrite Hs. cbn. by rewrite bool_decide_eq_false_2 by done. }
  destruct (flushUpdates_fields p j _ _ Hj Hupd) as (H1 & H2 & H3 & H4).
  split; [done|]. split; [done|]. split; [done|]. split; [done|].
  intros el Hel.
  apply (flushUpdates_writes p j (scrollToUpdate p target) el);
    [done|congruence| |]; rewrite Hupd; cbn; [|done].
  intros Hsame. apply Hchanged. rewrite <- Hs, <- Hsame. done.
Qed.

(** X11: [scrollToItem] on a vertical list asks the alignment policy once,
    for the index clamped to [[0, itemCount - 1]] and the committed offset;
    when the answer differs from the committed offset it is committed, with
    [scrollUpdateWasRequested] set, [normalizedScrollLeft] undefined until
    the next commit, the direction [forward] exactly when the answer is
    larger, and the attached outer element shows it once the work loop is
    done. *)
Theorem scrollToItem_vertical p index align i :
  updateQueue i = [] → isHorizontal p = false →
  let current := scrollOffset (state i) in
  let answer :=
    getOffsetForIndexAndAlignment p (clampedIndex p index) align
      (Some current) (_instanceProps i) in
  let queued := exec (scrollToItem p index align) i in
  let i' := exec (dispatch p (HostScrollToItem index align)) i in
  trace queued =
    trace i ++
    [CallGetOffsetForIndexAndAlignment (clampedIndex p index) align
       (Some current)]
  ∧ scrollOffset (state i') = answer.1
  ∧ (answer.1 ≠ current →
     scrollUpdateWasRequested (state i') = true
     ∧ scrollDirection (state i') =
         (if current <? answer.1 then forward else backward)
     ∧ normalizedScrollLeft (state i') = None
     ∧ (∀ el, _outerRef i = Some el → domFollows p i')).
Proof.
  intros Hq Hvertical. cbn zeta.
  assert (exec (scrollToItem p index align) i =
          set_updateQueue
            [scrollToItemUpdate None
               (getOffsetForIndexAndAlignment p (clampedIndex p index) align
                  (Some (scrollOffset (state i))) (_instanceProps i)).1
               (if scrollOffset (state i) <?
                   (getOffsetForIndexAndAlignment p (clampedIndex p index)
                      align (Some (scrollOffset (state i)))
                      (_instanceProps i)).1
                then forward else backward)]
            (afterCall
               (CallGetOffsetForIndexAndAlignment (clampedIndex p index)
                  align (Some (scrollOffset (state i))))
               (getOffsetForIndexAndAlignment p (clampedIndex p index) align
                  (Some (scrollOffset (state i))) (_instanceProps i)).2 i))
    as Hqueued.
  { unfold scrollToItem, clampedIndex, exec, mbind, M_bind, read, invoke,
      afterCall.
    rewrite Hvertical.
    destruct (getOffsetForIndexAndAlignment p _ align _ (_instanceProps i)).
    unfold setState, modify. cbn. by rewrite Hq. }
  set (answer := getOffsetForIndexAndAlignment p (clampedIndex p index) align
                   (Some (scrollOffset (state i))) (_instanceProps i)) in *.
  cbn [dispatch]. rewrite exec_bind, Hqueued.
  match goal with
  | |- context [set_updateQueue [?u0] ?j0] => set (u := u0); set (j := j0)
  end.
  set (k := set_updateQueue [u] j).
  assert (updateQueue k = [u]) as Hk by done.
  assert (state k = state i) as Hs by done.
  split; [done|].
  split.
  { rewrite flushUpdates_offset, Hk. cbn [applyUpdates foldl].
    apply scrollToItemUpdate_offset. }
  intros Hchanged.
  assert (updater u (state k) =
          Some {| isScrolling := isScrolling (state i);
                  scrollDirection :=
                    if scrollOffset (state i) <? answer.1
                    then forward else backward;
                  scrollOffset := answer.1;
                  normalizedScrollLeft := None;
                  scrollUpdateWasRequested := true |}) as Hupd.
  { rewrite Hs. cbn. by rewrite bool_decide_eq_false_2 by done. }
  destruct (flushUpdates_fields p k _ _ Hk Hupd) as (H1 & H2 & H3 & H4).
  split; [done|]. split; [done|].
  split.
  - unfold flushUpdates. rewrite flushNested_done.
    + rewrite commitUpdates_state, Hk. cbn [applyUpdates foldl].
      by rewrite Hupd.
    + rewrite commitUpdates_queue. cbn zeta. case_bool_decide; [done|].
      rewrite Hk. cbn [applyUpdates foldl]. rewrite Hupd.
      unfold queuedByDidUpdate. cbn. rewrite Hvertical.
      by destruct (_outerRef i).
  - intros el Hel.
    apply (flushUpdates_writes p k u el); [done|done| |];
      rewrite Hupd; cbn; [|done].
    intros Hsame. apply Hchanged. by rewrite <- Hsame.
Qed.

(** X12: an observed scroll event never assigns to [scrollLeft] or
    [scrollTop] of the outer element and leaves the element as it is, so
    the component does not answer a scroll event with a scroll of its
    own. *)
Theorem observed_scroll_never_writes p event i :
  updateQueue i = [] →
  let i' := exec (dispatch p (HostScroll event)) i in
  callsOf isDomWrite i' = callsOf isDomWrite i
  ∧ _outerRef i' = _outerRef i.
Proof.
  intros Hq. cbn zeta. cbn [dispatch].
  rewrite exec_bind, onScrollHandler_exec, Hq. cbn [app].
  match goal with |- context [set_updateQueue [?u0] i] => set (u := u0) end.
  set (j := set_updateQueue [u] i).
  assert (updateQueue j = [u]) as Hj by done.
  assert (scrollUpdateWasRequested (default (state j) (updater u (state j)))
          = false ∨ default (state j) (updater u (state j)) = state j)
    as Hnext.
  { cbn. case_bool_decide; [by right|by left]. }
  unfold flushUpdates. rewrite flushNested_done.
  2:{ rewrite commitUpdates_queue. cbn zeta. case_bool_decide; [done|].
      rewrite Hj. cbn [applyUpdates foldl].
      destruct Hnext as [Hreq|Hsame]; [|by rewrite Hj in *].
      unfold queuedByDidUpdate. by rewrite Hreq. }
  rewrite (commitUpdates_single p j u Hj). cbn zeta.
  assert (preserves (callsOf isDomWrite)
            (forEach runCallback
               match callback u with Some cb => [cb] | None => [] end)) as ->
    by (apply preserves_forEach; intros cb; destruct cb; framed).
  assert (preserves _outerRef
            (forEach runCallback
               match callback u with Some cb => [cb] | None => [] end)) as ->
    by frame.
  case_bool_decide as Hsame; [done|].
  destruct Hnext as [Hreq|]; [|done].
  rewrite exec_bind, componentDidUpdate_unrequested
    by by rewrite render_state.
  assert (preserves (callsOf isDomWrite) (_callPropsCallbacks p)) as ->
    by framed.
  assert (preserves (callsOf isDomWrite) (render p)) as -> by framed.
  by rewrite callPropsCallbacks_outerRef, render_outerRef.
Qed.

(** X13: [scrollToItem] works with the index clamped to
    [[0, itemCount - 1]]: an index below 0 is treated as 0, an index past
    the last item as the last index; for a list without items every index
    is treated as 0, and the alignment policy is still asked about it. *)
Theorem scrollToItem_clamps_index p index align i :
  (∀ index',
     clampedIndex p index' = clampedIndex p index →
     scrollToItem p index' align i = scrollToItem p index align i)
  ∧ (0 < itemCount p → 0 ≤ clampedIndex p index ≤ itemCount p - 1)
  ∧ (index ≤ 0 → clampedIndex p index = 0)
  ∧ (0 < itemCount p → itemCount p - 1 ≤ index →
     clampedIndex p index = itemCount p - 1)
  ∧ (itemCount p ≤ 0 → clampedIndex p index = 0)
  ∧ ∃ current,
      head (drop (length (trace i))
              (trace (exec (scrollToItem p index align) i)))
      = Some (CallGetOffsetForIndexAndAlignment (clampedIndex p index) align
                current).
Proof.
  split; [|repeat split; try (unfold clampedIndex; lia)].
  - intros index' Hsame. unfold scrollToItem, clampedIndex in *.
    by rewrite Hsame.
  - unfold scrollToItem. fold (clampedIndex p index).
    rewrite exec_bind, eval_read, exec_read, exec_bind.
    destruct (isHorizontal p); eexists;
      rewrite !eval_bind, !exec_bind, !eval_invoke, !exec_invoke;
      unfold setState, afterCall; cbn;
      rewrite <- ?(assoc_L (++)), drop_app_length; done.
Qed.




(** *** The list without items *)

Lemma delivery_informed s s' :
  delivery (Some (scrollTuple s)) s' =
  if bool_decide (scrollTuple s' = scrollTuple s) then [] else [onScrollOf s'].
Proof. unfold delivery. repeat case_bool_decide; done || congruence. Qed.

Lemma delivery_sameTuple last s s' :
  scrollTuple s' = scrollTuple s → delivery last s' = delivery last s.
Proof.
  unfold delivery, onScrollOf, scrollTuple. intros [= -> -> ->]. done.
Qed.

Lemma callOnScroll_calls dir offset requested i :
  onScrollCalls (exec (_callOnScroll dir offset requested) i) =
  onScrollCalls i ++
  if bool_decide (_callOnScroll_lastArgs i = Some (dir, offset, requested))
  then [] else [OnScroll dir offset requested].
Proof.
  unfold _callOnScroll, exec, mbind, M_bind, read, emit, modify. cbn zeta.
  case_bool_decide; [by rewrite app_nil_r|].
  unfold onScrollCalls, callsOf. cbn. by rewrite filter_app.
Qed.

Lemma callPropsCallbacks_calls p i :
  onScroll p = true →
  onScrollCalls (exec (_callPropsCallbacks p) i) =
  onScrollCalls i ++ delivery (_callOnScroll_lastArgs i) (state i).
Proof.
  intros Hscroll. unfold _callPropsCallbacks. rewrite Hscroll, exec_bind.
  rewrite exec_bind, eval_read, exec_read, callOnScroll_calls.
  match goal with |- context [exec ?m i] =>
    assert (preserves state m) as Hs by framed;
    assert (preserves _callOnScroll_lastArgs m) as Hl by framed;
    assert (preserves onScrollCalls m) as Hc by (unfold onScrollCalls; framed)
  end.
  by rewrite Hs, Hl, Hc.
Qed.

Lemma componentDidUpdate_calls p i :
  onScroll p = true →
  onScrollCalls (exec (componentDidUpdate p) i) =
  onScrollCalls i ++ delivery (_callOnScroll_lastArgs i) (state i).
Proof.
  intros Hscroll. unfold componentDidUpdate.
  rewrite exec_bind, eval_read, exec_read, exec_bind, eval_read, exec_read.
  rewrite exec_bind, callPropsCallbacks_calls by done.
  match goal with |- context [exec ?m i] =>
    assert (preserves state m) as Hs by framed;
    assert (preserves _callOnScroll_lastArgs m) as Hl by framed;
    assert (preserves onScrollCalls m) as Hc by (unfold onScrollCalls; framed)
  end.
  by rewrite Hs, Hl, Hc.
Qed.

(** One pass of the work loop, for a host that knows the committed tuple:
    [onScroll] is invoked once, with the new tuple, when the pass changes
    the tuple, and not at all otherwise. *)
Lemma commitUpdates_calls p i :
  onScroll p = true → hostInformed i →
  let i' := exec (commitUpdates p) i in
  hostInformed i'
  ∧ onScrollCalls i' =
    onScrollCalls i ++ delivery (Some (scrollTuple (state i))) (state i').
Proof.
  intros Hscroll Hi. cbn zeta.
  split; [by apply commitUpdates_informs|].
  rewrite commitUpdates_state, commitUpdates_exec. cbn zeta.
  assert (preserves onScrollCalls
            (forEach runCallback (omap callback (updateQueue i)))) as ->
    by (unfold onScrollCalls; apply preserves_forEach; intros cb;
        destruct cb; framed).
  case_bool_decide as Hsame.
  - rewrite Hsame, exec_ret. unfold delivery.
    rewrite bool_decide_eq_true_2 by done. by rewrite app_nil_r.
  - rewrite exec_bind, componentDidUpdate_calls by done.
    rewrite render_state.
    assert (preserves _callOnScroll_lastArgs (render p)) as -> by framed.
    assert (preserves onScrollCalls (render p)) as ->
      by (unfold onScrollCalls; framed).
    cbn. by rewrite Hi.
Qed.

Lemma flushNested_calls n p i :
  onScroll p = true → hostInformed i →
  let i' := exec (flushNested n p) i in
  hostInformed i'
  ∧ onScrollCalls i' =
    onScrollCalls i ++ delivery (Some (scrollTuple (state i))) (state i').
Proof.
  intros Hscroll Hi. cbn zeta.
  destruct (commitUpdates_calls p i Hscroll Hi) as [Hj Hcalls].
  set (j := exec (commitUpdates p) i) in *.
  set (P := λ k, hostInformed k
                 ∧ scrollTuple (state k) = scrollTuple (state j)
                 ∧ onScrollCalls k = onScrollCalls j
                 ∧ Forall normalizedOnly (updateQueue k)).
  assert (keeps P (commitUpdates p)) as Hkeep.
  { intros k (Hk & Ht & Hc & Hn).
    destruct (commitUpdates_calls p k Hscroll Hk) as [Hk' Hc'].
    assert (scrollTuple (state (exec (commitUpdates p) k))
            = scrollTuple (state k)) as Hsame.
    { rewrite commitUpdates_state.
      destruct (applyUpdates_normalizedOnly _ (state k) Hn)
        as (_ & Hd & Ho & Hr).
      unfold scrollTuple. by rewrite Hd, Ho, Hr. }
    split; [done|]. split; [by rewrite Hsame|]. split.
    - rewrite Hc', delivery_informed, bool_decide_eq_true_2 by done.
      by rewrite app_nil_r.
    - apply commitUpdates_normalizedOnly. }
  assert (P j) as HPj
    by (repeat split; try done; apply commitUpdates_normalizedOnly).
  assert (P (exec (flushNested n p) i)) as (H1 & H2 & H3 & _).
  { rewrite flushNested_exec. cbn zeta. fold j.
    destruct (updateQueue j), n; try done.
    by apply flushNested_keeps_any. }
  split; [done|]. rewrite H3, Hcalls. f_equal. symmetry.
  by apply delivery_sameTuple.
Qed.

(** A host event, for a host that knows the committed tuple. *)
Lemma dispatch_calls p e i :
  onScroll p = true → hostInformed i →
  let i' := exec (dispatch p e) i in
  hostInformed i'
  ∧ onScrollCalls i' =
    onScrollCalls i ++ delivery (Some (scrollTuple (state i))) (state i').
Proof.
  intros Hscroll Hi. cbn zeta.
  assert (∀ (m : M unit),
            preserves state m → preserves _callOnScroll_lastArgs m →
            preserves onScrollCalls m →
            let i' := exec (m;; flushUpdates p) i in
            hostInformed i'
            ∧ onScrollCalls i' =
              onScrollCalls i
              ++ delivery (Some (scrollTuple (state i))) (state i'))
    as Hframe.
  { intros m Hs Hl Hc. cbn zeta. rewrite exec_bind.
    assert (hostInformed (exec m i)) as Hm
      by (unfold hostInformed; by rewrite Hs, Hl).
    destruct (flushNested_calls NESTED_UPDATE_LIMIT p _ Hscroll Hm)
      as [H1 H2].
    split; [done|]. unfold flushUpdates. by rewrite H2, Hs, Hc. }
  destruct e as [event|offset|index align|id|[]]; cbn [dispatch];
    try solve [apply Hframe; unfold onScrollCalls; framed].
  rewrite !exec_bind.
  assert (hostInformed (exec (render p) i)) as Hr.
  { unfold hostInformed. rewrite render_state.
    assert (preserves _callOnScroll_lastArgs (render p)) as -> by framed.
    done. }
  destruct (flushNested_calls NESTED_UPDATE_LIMIT p
              (exec (componentDidUpdate p) (exec (render p) i)) Hscroll
              (componentDidUpdate_informs p _ Hscroll)) as [H1 H2].
  split; [done|]. unfold flushUpdates. rewrite H2.
  rewrite componentDidUpdate_calls, componentDidUpdate_state by done.
  rewrite Hr, render_state.
  assert (preserves onScrollCalls (render p)) as ->
    by (unfold onScrollCalls; framed).
  unfold delivery at 1. rewrite bool_decide_eq_true_2 by done.
  by rewrite app_nil_r.
Qed.

(** C10: for a list with [itemCount = 0], neither mounting nor any later
    host event invokes [onItemsRendered], and [render] creates no item.
    When [onScroll] is supplied it is still invoked with the current
    scroll-state tuple: [_callPropsCallbacks] is then the memoized delivery
    of that tuple; mounting invokes [onScroll] once, with the initial tuple;
    [componentDidUpdate] invokes it with the committed tuple unless that is
    the tuple of the previous invocation; a host event that changes the
    tuple invokes it exactly once, with the new tuple, and after every
    event the tuple last delivered is the committed one; in particular an
    observed scroll event to another offset invokes it once, with the
    offset of the event and [scrollUpdateWasRequested = false]. *)
Theorem empty_list_notifications p :
  itemCount p = 0 →
  (∀ el, itemsRenderedCalls (mount p el) = [])
  ∧ (∀ e i, itemsRenderedCalls (exec (dispatch p e) i) = itemsRenderedCalls i)
  ∧ (onScroll p = true →
     (∀ i, exec (_callPropsCallbacks p) i =
           exec (_callOnScroll (scrollDirection (state i))
                   (scrollOffset (state i))
                   (scrollUpdateWasRequested (state i))) i)
     ∧ (∀ el, onScrollCalls (mount p el) =
              [OnScroll forward (scrollOffset (state (constructor p))) false])
     ∧ (∀ el, hostInformed (mount p el))
     ∧ (∀ i, let i' := exec (componentDidUpdate p) i in
             hostInformed i'
             ∧ onScrollCalls i' =
               onScrollCalls i
               ++ if bool_decide
                       (_callOnScroll_lastArgs i = Some (scrollTuple (state i)))
                  then [] else [onScrollOf (state i)])
     ∧ (∀ e i, hostInformed i →
          let i' := exec (dispatch p e) i in
          hostInformed i'
          ∧ onScrollCalls i' =
            onScrollCalls i
            ++ if bool_decide (scrollTuple (state i') = scrollTuple (state i))
               then [] else [onScrollOf (state i')])
     ∧ (∀ event i,
          updateQueue i = [] → hostInformed i →
          rawOffset p event ≠ scrollOffset (state i) →
          let i' := exec (dispatch p (HostScroll event)) i in
          onScrollCalls i' =
          onScrollCalls i
          ++ [OnScroll (scrollDirection (state i')) (rawOffset p event)
                false]))
  ∧ (∀ i, (eval (render p) i).1 = []).
Proof.
  intros Hzero.
  assert (∀ el, updateQueue
                  (exec (componentDidMount p)
                     (exec (render p;; _outerRefSetter (Some el))
                        (constructor p))) = []) as Hidle.
  { intros el. rewrite componentDidMount_queue.
    by destruct (before_componentDidMount p el) as (_ & ? & _). }
  split; [|split; [|split]].
  - intros el. rewrite mount_exec, flushUpdates_nothing by done.
    rewrite componentDidMount_empty by done.
    by destruct (before_componentDidMount p el) as (_ & _ & _ & _ & ?).
  - intros e i. by apply dispatch_empty.
  - intros Hscroll. split; [|split; [|split; [|split; [|split]]]].
    + intros i. by apply callPropsCallbacks_without_items.
    + intros el. rewrite mount_exec, flushUpdates_nothing by done.
      destruct (before_componentDidMount p el)
        as (Hstate & _ & Hlast & Hcalls & _). cbn zeta in *.
      destruct (componentDidMount_exec p
                  (exec (render p;; _outerRefSetter (Some el))
                     (constructor p)))
        as (j & -> & Hs & Hl & Hc).
      rewrite callPropsCallbacks_without_items by done.
      rewrite Hs, Hstate.
      destruct (constructor_fresh p) as (_ & _ & _ & _ & -> & ->).
      unfold _callOnScroll, exec, mbind, M_bind, read, emit, modify.
      cbn zeta. rewrite Hl, Hlast, bool_decide_eq_false_2 by done.
      unfold onScrollCalls, callsOf in *. cbn.
      by rewrite filter_app, Hc, Hcalls.
    + intros el. rewrite mount_exec, flushUpdates_nothing by done.
      destruct (componentDidMount_exec p
                  (exec (render p;; _outerRefSetter (Some el))
                     (constructor p)))
        as (j & -> & _).
      by apply callPropsCallbacks_informs.
    + intros i. cbn zeta.
      split; [by apply componentDidUpdate_informs|].
      by apply componentDidUpdate_calls.
    + intros e i Hi. cbn zeta.
      destruct (dispatch_calls p e i Hscroll Hi) as [H1 H2].
      split; [done|]. by rewrite H2, delivery_informed.
    + intros event i Hq Hi Hraw. cbn zeta.
      destruct (dispatch_calls p (HostScroll event) i Hscroll Hi)
        as [_ ->].
      set (i' := exec (dispatch p (HostScroll event)) i).
      assert (sameScroll
                (applyUpdates
                   (updateQueue (exec (onScrollHandler p event) i)) (state i))
                (state i'))
        as (_ & _ & Hoffset & Hrequested).
      { subst i'. cbn [dispatch]. rewrite exec_bind.
        rewrite <- (onScrollHandler_state p event i) at 1.
        apply (flushNested_sameScroll NESTED_UPDATE_LIMIT). }
      clearbody i'. rewrite onScrollHandler_exec, Hq in Hoffset, Hrequested.
      cbn in Hoffset, Hrequested.
      rewrite bool_decide_eq_false_2 in Hoffset, Hrequested by done.
      cbn in Hoffset, Hrequested.
      rewrite delivery_informed, bool_decide_eq_false_2.
      * unfold onScrollOf. by rewrite Hoffset, Hrequested.
      * unfold scrollTuple. intros [= _ Hsame _]. congruence.
  - intros i. by apply render_items_without_items.
Qed.



End Properties.

(** ** The theorems at a concrete list *)

Lemma getRangeToRender_bounds_witness :
  ∃ overscanStart overscanStop visibleStart visibleStop,
    @eval Example.strategy _
      (@_getRangeToRender Example.strategy Example.verticalProps)
      Example.scrolling
    = (overscanStart, overscanStop, visibleStart, visibleStop)
    ∧ 0 ≤ overscanStart ∧ overscanStart ≤ visibleStart
    ∧ visibleStart ≤ visibleStop ∧ visibleStop ≤ overscanStop
    ∧ overscanStop ≤ 999.
Proof.
  destruct (@getRangeToRender_bounds Example.strategy
              Example.verticalProps Example.scrolling)
    as (a & b & c & d & Heval & _ & Hbounds).
  - vm_compute. discriminate.
  - intros _ startIndex ip1 stopIndex ip2 Hstart Hstop.
    vm_compute in Hstart. injection Hstart as <- <-.
    vm_compute in Hstop. injection Hstop as <- <-. cbn. lia.
  - exists a, b, c, d. split; [exact Heval|]. apply Hbounds. reflexivity.
Defined.

Lemma getRangeToRender_forward_scenario_witness :
  @eval Example.strategy _
    (@_getRangeToRender Example.strategy Example.verticalProps)
    Example.scrolling
  = (39, 48, 40, 45).
Proof.
  apply (@getRangeToRender_forward_scenario Example.strategy
           Example.verticalProps Example.scrolling 48 48); reflexivity.
Defined.

Lemma scrollToItem_horizontal_order_witness :
  let queued :=
    @exec Example.strategy _
      (@scrollToItem Example.strategy spec_dom Example.rtlProps 100 align_start)
      Example.mountedRtl in
  @trace Example.strategy queued =
    @trace Example.strategy Example.mountedRtl ++
    [CallGetOffsetForIndexAndAlignment 100 align_start (Some 0);
     CallGetStartIndexForOffset (Some 1000);
     CallGetStopIndexForStartIndex 100 (Some 1000);
     CallGetItemOffset 108;
     CallGetEstimatedTotalSize]
  ∧ @_instanceProps Example.strategy queued = 108
  ∧ @updateQueue Example.strategy queued =
      [scrollToItemUpdate (Some 1000) 4485 forward]
  ∧ scrollOffset
      (@state Example.strategy
         (@exec Example.strategy _
            (@dispatch Example.strategy spec_dom Example.rtlProps
               (HostScrollToItem 100 align_start))
            Example.mountedRtl))
    = 4485.
Proof.
  apply (@scrollToItem_horizontal_order Example.strategy spec_dom
           Example.rtlProps 100 align_start Example.mountedRtl
           1000 100 100 100 105 105 1080 108 5545 108); reflexivity.
Defined.

Lemma observed_scroll_event_witness :
  let next :=
    @state Example.strategy
      (@exec Example.strategy _
         (@dispatch Example.strategy spec_dom Example.verticalProps
            (HostScroll (Example.scrollEventAt 400)))
         Example.mounted) in
  isScrolling next = true
  ∧ scrollUpdateWasRequested next = false
  ∧ scrollOffset next = 400
  ∧ scrollDirection next = forward.
Proof.
  destruct (@observed_scroll_event Example.strategy spec_dom
              Example.verticalProps (Example.scrollEventAt 400)
              Example.mounted)
    as [_ Hmoved]; [reflexivity|].
  destruct Hmoved as (H1 & H2 & H3 & _ & H4); [vm_compute; discriminate|].
  cbn zeta. split; [exact H1|]. split; [exact H2|]. split; [exact H3|].
  rewrite H4. reflexivity.
Defined.

Lemma scrollTo_commits_clamped_offset_witness :
  scrollOffset
    (@state Example.strategy
       (@exec Example.strategy _
          (@dispatch Example.strategy spec_dom Example.verticalProps
             (HostScrollTo (-5)))
          Example.scrolling))
  = 0
  ∧ scrollOffset
      (@state Example.strategy
         (@exec Example.strategy _
            (@dispatch Example.strategy spec_dom Example.horizontalProps
               (HostScrollTo (-5)))
            (@mount Example.strategy spec_dom Example.horizontalProps
               Example.element)))
    = 0.
Proof.
  split.
  - destruct (@scrollTo_commits_clamped_offset Example.strategy spec_dom
                Example.verticalProps (-5) Example.scrolling)
      as [Hvertical _].
    apply Hvertical. reflexivity.
  - destruct (@scrollTo_commits_clamped_offset Example.strategy spec_dom
                Example.horizontalProps (-5)
                (@mount Example.strategy spec_dom Example.horizontalProps
                   Example.element))
      as [_ Hhorizontal].
    destruct Hhorizontal as [_ Hcommitted]; [reflexivity|reflexivity|].
    exact Hcommitted.
Defined.

(** C5 as stated fails: the vertical list whose committed offset is -5
    commits the offset 0, a new direction and a requested update when
    [scrollTo] is called with -5. *)
Lemma committed_offset_scrollTo_changes_state :
  let i := Example.overscrolled in
  let i' :=
    @exec Example.strategy _
      (@dispatch Example.strategy spec_dom Example.verticalProps
         (HostScrollTo (scrollOffset (@state Example.strategy i))))
      i in
  @state Example.strategy i =
    {| isScrolling := true; scrollDirection := backward; scrollOffset := -5;
       normalizedScrollLeft := Some 0; scrollUpdateWasRequested := false |}
  ∧ @state Example.strategy i' =
    {| isScrolling := true; scrollDirection := forward; scrollOffset := 0;
       normalizedScrollLeft := None; scrollUpdateWasRequested := true |}
  ∧ @state Example.strategy i' ≠ @state Example.strategy i.
Proof. vm_compute. repeat split. discriminate. Qed.

Lemma scrollTo_same_offset_noop_witness :
  let i := Example.scrolling in
  let i' :=
    @exec Example.strategy _
      (@dispatch Example.strategy spec_dom Example.verticalProps
         (HostScrollTo 400))
      i in
  @state Example.strategy i' = @state Example.strategy i
  ∧ itemsRenderedCalls i' = itemsRenderedCalls i
  ∧ onScrollCalls i' = onScrollCalls i.
Proof.
  apply (@scrollTo_same_offset_noop Example.strategy spec_dom
           Example.verticalProps Example.scrolling); [reflexivity|].
  vm_compute. discriminate.
Defined.

(** C6 as stated fails: while the vertical list scrolls at offset 400 with
    timeout 0 pending, [scrollTo(400)] leaves the scroll state as it is, and
    yet timeout 0 is cancelled and timeout 1 requested. *)
Lemma committed_offset_scrollTo_rearms_timer :
  let i := Example.scrolling in
  let i' :=
    @exec Example.strategy _
      (@dispatch Example.strategy spec_dom Example.verticalProps
         (HostScrollTo 400))
      i in
  scrollOffset (@state Example.strategy i) = 400
  ∧ @state Example.strategy i' = @state Example.strategy i
  ∧ @pendingTimeouts Example.strategy i = [0%nat]
  ∧ @pendingTimeouts Example.strategy i' = [1%nat]
  ∧ @trace Example.strategy i' =
    @trace Example.strategy i ++ [CancelTimeout 0%nat; RequestTimeout 1%nat 150].
Proof. vm_compute. repeat split. Qed.

Lemma Example_scrolling_reachable :
  @reachable Example.strategy spec_dom Example.scrolling.
Proof.
  unfold Example.scrolling, Example.mounted.
  apply reachable_dispatch; [apply reachable_mount|exact I].
Defined.

Lemma debounce_single_timer_rearmed_witness :
  (length (@pendingTimeouts Example.strategy Example.scrolling) ≤ 1)%nat
  ∧ @pendingTimeouts Example.strategy
      (@exec Example.strategy _
         (@dispatch Example.strategy spec_dom Example.verticalProps
            (HostScrollTo 400))
         Example.scrolling)
    = [1%nat].
Proof.
  destruct (@debounce_single_timer_rearmed Example.strategy spec_dom
              Example.scrolling Example_scrolling_reachable)
    as (Hone & _ & Hnoop).
  split; [exact Hone|].
  destruct (Hnoop Example.verticalProps 400) as (_ & _ & Hpending & _);
    [reflexivity|exact Hpending].
Defined.

Lemma programmatic_scroll_keeps_isScrolling_witness :
  isScrolling
    (@state Example.strategy
       (@exec Example.strategy _
          (@dispatch Example.strategy spec_dom Example.verticalProps
             (HostScrollTo 0))
          Example.scrolling))
  = true
  ∧ isScrolling
      (@state Example.strategy
         (@exec Example.strategy _
            (@dispatch Example.strategy spec_dom Example.verticalProps
               (HostScrollToItem 500 align_center))
            Example.scrolling))
    = true.
Proof.
  destruct (@programmatic_scroll_keeps_isScrolling Example.strategy spec_dom
              Example.verticalProps Example.scrolling)
    as (HscrollTo & HscrollToItem & _); [reflexivity|].
  split; [apply (HscrollTo 0)|apply (HscrollToItem 500 align_center)].
Defined.

Lemma empty_list_notifications_witness :
  let mounted :=
    @mount Example.strategy spec_dom Example.emptyProps Example.element in
  let scrolled :=
    @exec Example.strategy _
      (@dispatch Example.strategy spec_dom Example.emptyProps
         (HostScroll (Example.scrollEventAt 400)))
      mounted in
  itemsRenderedCalls mounted = []
  ∧ onScrollCalls mounted = [OnScroll forward 0 false]
  ∧ itemsRenderedCalls scrolled = []
  ∧ onScrollCalls scrolled
    = [OnScroll forward 0 false; OnScroll forward 400 false]
  ∧ (@eval Example.strategy _
       (@render Example.strategy Example.emptyProps) mounted).1
    = [].
Proof.
  cbn zeta.
  destruct (@empty_list_notifications Example.strategy spec_dom
              Example.emptyProps)
    as (Hmount & Hevent & Hscroll & Hrender); [reflexivity|].
  destruct Hscroll as (_ & Hcalls & Hinformed & _ & _ & Hobserved);
    [reflexivity|].
  split; [exact (Hmount Example.element)|].
  split; [exact (Hcalls Example.element)|].
  split; [etrans; [apply Hevent|exact (Hmount Example.element)]|].
  split; [|exact (Hrender _)].
  etrans.
  - apply (Hobserved (Example.scrollEventAt 400)
             (@mount Example.strategy spec_dom Example.emptyProps
                Example.element)).
    + vm_compute. reflexivity.
    + exact (Hinformed Example.element).
    + vm_compute. discriminate.
  - vm_compute. reflexivity.
Defined.

(** ** Properties of the validation *)

#[local] Set Warnings "-clear-no-such-hyp".

Lemma warnOnce_cases set instance w :
  let r := warnOnce set instance w in
  (r.2 = [] ∨ r.2 = [w])
  ∧ (r.2 = [w] → ∃ seen, r.1 = Some seen ∧ instance ∈ seen)
  ∧ (∀ seen x, set = Some seen → x ∈ seen →
       ∃ seen', r.1 = Some seen' ∧ x ∈ seen')
  ∧ ((∃ seen, set = Some seen ∧ instance ∈ seen) → r.2 = [])
  ∧ (set = None → r = (None, [])).
Proof.
  unfold warnOnce. destruct set as [seen|]; [|cbn; naive_solver].
  case_bool_decide; cbn.
  - repeat split; try naive_solver.
  - repeat split; try naive_solver.
    + intros _. exists ({[instance]} ∪ seen). split; [done|set_solver].
    + intros seen0 x [= <-] Hx. exists ({[instance]} ∪ seen).
      split; [done|set_solver].
Qed.

(** X15: outside production [validateSharedProps] throws nothing exactly
    when the direction is one of ltr, rtl, horizontal and vertical, the
    layout is horizontal or vertical, [children] is neither [null] nor
    [undefined], and the extent along the scroll axis is a number: the
    width of a horizontal list, the height of a vertical one.  In
    production it checks nothing. *)
Theorem validateSharedProps_accepts props instance dev :
  (thrown (validateSharedProps false props instance dev) = None
   ↔ shared_direction props ∈ ["ltr"; "rtl"; "horizontal"; "vertical"]
     ∧ shared_layout props ∈ ["horizontal"; "vertical"]
     ∧ isNullish (shared_children props) = false
     ∧ typeof (if sharedIsHorizontal props then shared_width props
               else shared_height props) = "number")
  ∧ validateSharedProps true props instance dev
    = {| warned := dev; warnings := []; thrown := None |}.
Proof.
  split; [|done].
  unfold validateSharedProps, sharedIsHorizontal.
  destruct (if negb (isNullish (shared_innerTagName props))
               || negb (isNullish (shared_outerTagName props))
            then warnOnce (devWarningsTagName dev) instance TagNameDeprecated
            else (devWarningsTagName dev, [])) as [tagNames warnedTagName].
  destruct (warnOnce (devWarningsDirection dev) instance DirectionDeprecated)
    as [set w].
  rewrite !elem_of_cons, !elem_of_nil.
  destruct (isNullish (shared_children props));
    repeat case_bool_decide; cbn; naive_solver.
Qed.

(** X16: a deprecation warning is logged at most once for an instance: the
    call that logs it records the instance, a recorded instance stays
    recorded through later calls for any instance and props, and no call
    for a recorded instance logs the warning again.  Where the weak sets do
    not exist no warning is logged at all. *)
Theorem deprecation_warned_once production props instance dev w :
  (w ∈ warnings (validateSharedProps production props instance dev) →
   alreadyWarned w instance
     (warned (validateSharedProps production props instance dev)))
  ∧ (∀ instance',
       alreadyWarned w instance' dev →
       alreadyWarned w instance'
         (warned (validateSharedProps production props instance dev)))
  ∧ (alreadyWarned w instance dev →
     w ∉ warnings (validateSharedProps production props instance dev))
  ∧ (devWarningsDirection dev = None → devWarningsTagName dev = None →
     warnings (validateSharedProps production props instance dev) = []).
Proof.
  unfold validateSharedProps, alreadyWarned.
  destruct production; [cbn; split; [by intros ?%elem_of_nil|];
    split; [done|]; split; [by intros _ ?%elem_of_nil|done]|].
  pose proof (warnOnce_cases (devWarningsTagName dev) instance
                TagNameDeprecated) as (T1 & T2 & T3 & T4 & T5).
  pose proof (warnOnce_cases (devWarningsDirection dev) instance
                DirectionDeprecated) as (D1 & D2 & D3 & D4 & D5).
  cbn zeta in *.
  destruct (warnOnce (devWarningsTagName dev) instance TagNameDeprecated)
    as [tagSet tagWarnings].
  destruct (warnOnce (devWarningsDirection dev) instance DirectionDeprecated)
    as [dirSet dirWarnings].
  cbn [fst snd] in *.
  destruct (negb (isNullish (shared_innerTagName props))
            || negb (isNullish (shared_outerTagName props)));
    destruct (bool_decide (shared_direction props = "horizontal")
              || bool_decide (shared_direction props = "vertical"));
    destruct (bool_decide (shared_direction props = "ltr")
              || bool_decide (shared_direction props = "rtl"));
    cbn [warned warnings devWarningsDirection devWarningsTagName];
    (split; [|split; [|split]]);
    try (intros Hin; apply elem_of_app in Hin);
    try (intros instance' (seen & Hset & Hseen));
    try (intros (seen & Hset & Hseen));
    try (intros Hin%elem_of_app);
    try (intros Hd Ht);
    destruct w;
    repeat match goal with
           | H : _ ∨ _ |- _ => destruct H
           | H : ?l = _, H' : _ ∈ ?l |- _ => rewrite H in H'
           | H : _ ∈ [] |- _ => by apply elem_of_nil in H
           | H : _ ∈ [_] |- _ => apply list_elem_of_singleton in H
           end;
    try discriminate; try naive_solver.
Qed.

(** ** The further properties at concrete inputs *)

Lemma pending_timeout_after_event_witness :
  @pendingTimeouts Example.strategy
    (@exec Example.strategy _
       (@dispatch Example.strategy spec_dom Example.verticalProps
          (HostScrollTo 0))
       Example.scrolling)
  = [1%nat].
Proof.
  destruct (@pending_timeout_after_event Example.strategy spec_dom
              Example.verticalProps (HostScrollTo 0) Example.scrolling
              Example_scrolling_reachable I) as [Hpending _].
  exact Hpending.
Defined.

Lemma unmount_cancels_timeout_witness :
  @pendingTimeouts Example.strategy
    (@exec Example.strategy _ (@componentWillUnmount Example.strategy)
       Example.scrolling)
  = [].
Proof.
  destruct (@unmount_cancels_timeout Example.strategy spec_dom
              Example.scrolling Example_scrolling_reachable)
    as [Hpending _].
  exact Hpending.
Defined.

Lemma mount_initial_state_witness :
  let i := @mount Example.strategy spec_dom Example2.offsetProps
             Example.element in
  scrollOffset (@state Example.strategy i) = 120
  ∧ @_outerRef Example.strategy i =
    Some {| el_scrollLeft := 0; el_scrollTop := 120; el_scrollWidth := 5000 |}.
Proof.
  destruct (@mount_initial_state Example.strategy spec_dom
              Example2.offsetProps Example.element)
    as (_ & _ & _ & _ & _ & _ & Hoffset).
  exact Hoffset.
Defined.


Lemma scrolling_has_pending_timeout_witness :
  ∃ id, @pendingTimeouts Example.strategy Example.scrolling = [id]
        ∧ @_resetIsScrollingTimeoutId Example.strategy Example.scrolling
          = Some id.
Proof.
  apply (@scrolling_has_pending_timeout Example.strategy spec_dom
           Example.scrolling Example_scrolling_reachable).
  vm_compute. reflexivity.
Defined.

Lemma debounce_expiry_witness :
  let i' :=
    @exec Example.strategy _
      (@dispatch Example.strategy spec_dom Example.verticalProps
         (HostTimeout 0%nat))
      Example.scrolling in
  @state Example.strategy i' =
    {| isScrolling := false; scrollDirection := forward; scrollOffset := 400;
       normalizedScrollLeft := Some 0; scrollUpdateWasRequested := false |}
  ∧ @itemStyleCache Example.strategy i' = ∅
  ∧ @pendingTimeouts Example.strategy i' = []
  ∧ @_resetIsScrollingTimeoutId Example.strategy i' = None.
Proof.
  apply (@debounce_expiry Example.strategy spec_dom Example.verticalProps
           0%nat Example.scrolling Example_scrolling_reachable).
  - vm_compute. apply list_elem_of_here.
  - left. vm_compute. reflexivity.
Defined.


Lemma item_style_recomputed_witness :
  let i := @constructor Example.strategy spec_dom Example.verticalProps in
  let i' :=
    @exec Example.strategy _
      (@_getItemStyle Example.strategy Example.verticalProps 3) i in
  @itemStyleCache Example.strategy i' =
    {[ 3 := @eval Example.strategy _
              (@_getItemStyle Example.strategy Example.verticalProps 3) i ]}
  ∧ @trace Example.strategy i' =
    @trace Example.strategy i ++ [CallGetItemOffset 3; CallGetItemSize 3]
  ∧ @_getItemStyleCache_lastArgs Example.strategy i' =
    Some (@styleArgs Example.strategy Example.verticalProps).
Proof.
  apply (@item_style_recomputed Example.strategy Example.verticalProps 3
           (@constructor Example.strategy spec_dom Example.verticalProps)).
  vm_compute. discriminate.
Defined.

Lemma render_items_cover_range_witness :
  item_index <$>
    (@eval Example.strategy _ (@render Example.strategy Example.verticalProps)
       Example.scrolling).1
  = [39; 40; 41; 42; 43; 44; 45; 46; 47; 48].
Proof.
  destruct (@render_items_cover_range Example.strategy
              Example.verticalProps Example.scrolling)
    as (Hindex & _); [vm_compute; reflexivity|].
  rewrite Hindex. reflexivity.
Defined.

Lemma scrollTo_transition_witness :
  let i' :=
    @exec Example.strategy _
      (@dispatch Example.strategy spec_dom Example.verticalProps
         (HostScrollTo 250))
      Example.scrolling in
  scrollOffset (@state Example.strategy i') = 250
  ∧ scrollUpdateWasRequested (@state Example.strategy i') = true
  ∧ scrollDirection (@state Example.strategy i') = backward
  ∧ isScrolling (@state Example.strategy i') = true
  ∧ @domFollows Example.strategy Example.verticalProps i'.
Proof.
  destruct (@scrollTo_transition Example.strategy spec_dom
              Example.verticalProps 250 Example.scrolling)
    as (H1 & H2 & H3 & H4 & H5); [vm_compute; reflexivity|vm_compute; discriminate|].
  cbn zeta. split; [exact H1|]. split; [exact H2|]. split; [exact H3|].
  split; [exact H4|].
  apply (H5 {| el_scrollLeft := 0; el_scrollTop := 0;
               el_scrollWidth := 5000 |}).
  vm_compute. reflexivity.
Defined.

Lemma scrollToItem_vertical_witness :
  let i' :=
    @exec Example.strategy _
      (@dispatch Example.strategy spec_dom Example.verticalProps
         (HostScrollToItem 5000 align_start))
      Example.mounted in
  scrollOffset (@state Example.strategy i') = 9990
  ∧ scrollUpdateWasRequested (@state Example.strategy i') = true
  ∧ scrollDirection (@state Example.strategy i') = forward
  ∧ normalizedScrollLeft (@state Example.strategy i') = None.
Proof.
  destruct (@scrollToItem_vertical Example.strategy spec_dom
              Example.verticalProps 5000 align_start Example.mounted)
    as (_ & Hoffset & Hchanged); [vm_compute; reflexivity|vm_compute; reflexivity|].
  destruct Hchanged as (H2 & H3 & H4 & _); [vm_compute; discriminate|].
  cbn zeta. split; [exact Hoffset|]. split; [exact H2|].
  split; [exact H3|exact H4].
Defined.

Lemma observed_scroll_never_writes_witness :
  let i' :=
    @exec Example.strategy _
      (@dispatch Example.strategy spec_dom Example.verticalProps
         (HostScroll (Example.scrollEventAt 400)))
      Example.mounted in
  callsOf isDomWrite i' = callsOf isDomWrite Example.mounted
  ∧ @_outerRef Example.strategy i' = @_outerRef Example.strategy Example.mounted.
Proof.
  apply (@observed_scroll_never_writes Example.strategy spec_dom
           Example.verticalProps (Example.scrollEventAt 400) Example.mounted).
  vm_compute. reflexivity.
Defined.

Lemma scrollToItem_clamps_index_witness :
  clampedIndex Example.verticalProps 5000 = 999
  ∧ clampedIndex Example.emptyProps 5000 = 0.
Proof.
  split.
  - destruct (@scrollToItem_clamps_index Example.strategy spec_dom
                Example.verticalProps 5000 align_auto Example.mounted)
      as (_ & _ & _ & Hlast & _).
    apply Hlast; vm_compute; [reflexivity|discriminate].
  - destruct (@scrollToItem_clamps_index Example.strategy spec_dom
                Example.emptyProps 5000 align_auto Example.mounted)
      as (_ & _ & _ & _ & Hnone & _).
    apply Hnone. vm_compute. discriminate.
Defined.


Lemma validateSharedProps_accepts_witness :
  thrown (validateSharedProps false Example2.legacyProps 7
            (initialDevWarnings false true)) = None
  ∧ thrown (validateSharedProps false Example2.badHeightProps 7
              (initialDevWarnings false true)) ≠ None.
Proof.
  split.
  - apply (validateSharedProps_accepts Example2.legacyProps 7
             (initialDevWarnings false true)).
    vm_compute. repeat split; set_solver.
  - intros Haccepted.
    apply (validateSharedProps_accepts Example2.badHeightProps 7
             (initialDevWarnings false true)) in Haccepted.
    destruct Haccepted as (_ & _ & _ & Hnumber). vm_compute in Hnumber.
    discriminate.
Defined.

Lemma deprecation_warned_once_witness :
  let first :=
    validateSharedProps false Example2.legacyProps 7
      (initialDevWarnings false true) in
  DirectionDeprecated ∈ warnings first
  ∧ DirectionDeprecated ∉
      warnings (validateSharedProps false Example2.legacyProps 7
                  (warned first)).
Proof.
  cbn zeta.
  assert (DirectionDeprecated ∈
          warnings (validateSharedProps false Example2.legacyProps 7
                      (initialDevWarnings false true))) as Hfirst.
  { vm_compute. apply list_elem_of_further, list_elem_of_here. }
  split; [exact Hfirst|].
  destruct (deprecation_warned_once false Example2.legacyProps 7
              (initialDevWarnings false true) DirectionDeprecated)
    as (Hrecorded & _).
  destruct (deprecation_warned_once false Example2.legacyProps 7
              (warned (validateSharedProps false Example2.legacyProps 7
                         (initialDevWarnings false true)))
              DirectionDeprecated)
    as (_ & _ & Honce & _).
  apply Honce, Hrecorded, Hfirst.
Defined.
